(** * Response cache of the MCP Trusted Advisor server

    A shallow embedding of [src/utils/cacheUtils.ts] (class [ResponseCache],
    [withCache], [invalidateCache]) and of the parts of the JavaScript
    runtime the cache relies on: truthiness, [Object.keys], property
    assignment, [JSON.stringify], [String.prototype.includes]/[split],
    the insertion-ordered [Map], and node's SHA-256 digest.

    Conventions.
    - JavaScript numbers that the cache manipulates (clock readings of
      [Date.now()], TTLs, sizes, counters) are integers and are modelled
      by [Z]; strings are modelled by [string] (8-bit characters).
    - [Date.now()] is an explicit argument [now] of every method that
      reads the clock.
    - A method of the class is a function from the cache before the call
      to the result paired with the cache after the call. *)

From Stdlib Require Import ZArith NArith List String Ascii Bool Lia.
From Stdlib Require Import Permutation QArith DecimalString DecimalPos DecimalZ.
Import ListNotations.

Set Warnings "-register-all".

Local Open Scope string_scope.
Local Open Scope list_scope.
Local Open Scope Z_scope.

(** ** JavaScript values *)

Module Js.

(** Payloads and parameter values: the JSON-like fragment of JavaScript
    plus [undefined]. The fields of an object are listed in property
    enumeration order. *)
Inductive JsValue : Type :=
| JUndefined
| JNull
| JBool (b : bool)
| JNum (n : Z)
| JStr (s : string)
| JArr (items : list JsValue)
| JObj (props : list (string * JsValue)).

(** [Record<string, unknown>]: own enumerable properties in enumeration
    order. *)
Definition JsObject : Type := list (string * JsValue).

(** ToBoolean, as used by [if (x)] and [x || y]. *)
Definition truthy (v : JsValue) : bool :=
  match v with
  | JUndefined | JNull => false
  | JBool b => b
  | JNum n => negb (n =? 0)
  | JStr s => negb (String.eqb s EmptyString)
  | JArr _ | JObj _ => true
  end.

(** ToBoolean on a string ([if (lruKey)]) and on a number
    ([customTtl || ttl]). *)
Definition truthy_string (s : string) : bool := negb (String.eqb s EmptyString).
Definition truthy_number (n : Z) : bool := negb (n =? 0).

(** *** Strings *)

Definition dquote : ascii := ascii_of_nat 34.
Definition backslash : ascii := ascii_of_nat 92.

(** [s.includes(pat)] *)
Fixpoint includes (s pat : string) : bool :=
  if String.prefix pat s then true
  else match s with
       | EmptyString => false
       | String _ s' => includes s' pat
       end.

(** [s.split(sep)[0]] for a one-character separator: the part of [s]
    before the first [sep], all of [s] when there is none. *)
Fixpoint split_first (sep : ascii) (s : string) : string :=
  match s with
  | EmptyString => EmptyString
  | String c s' => if Ascii.eqb c sep then EmptyString
                   else String c (split_first sep s')
  end.

(** [keys.sort()] with the default comparator: ascending code-unit
    order. The order is total and antisymmetric, so the sorted array
    does not depend on the sorting algorithm; insertion sort is used
    here. *)
Fixpoint sort_insert (x : string) (l : list string) : list string :=
  match l with
  | [] => [x]
  | y :: l' => if String.leb x y then x :: l else y :: sort_insert x l'
  end.

Definition sort (l : list string) : list string :=
  fold_right sort_insert [] l.

(** *** Objects *)

Definition Object_keys (o : JsObject) : list string := map fst o.

(** [o[k]] for own properties; [undefined] when there is none. *)
Fixpoint prop_get (o : JsObject) (k : string) : JsValue :=
  match o with
  | [] => JUndefined
  | (k', v) :: o' => if String.eqb k' k then v else prop_get o' k
  end.

Definition has_prop (o : JsObject) (k : string) : bool :=
  existsb (fun kv => String.eqb (fst kv) k) o.

Definition is_digit (c : ascii) : bool :=
  let n := N_of_ascii c in ((48 <=? n) && (n <=? 57))%N.

Fixpoint digits_value (acc : N) (s : string) : option N :=
  match s with
  | EmptyString => Some acc
  | String c s' =>
      if is_digit c
      then digits_value (10 * acc + (N_of_ascii c - 48))%N s'
      else None
  end.

(** A property key is an array index when it is the canonical decimal
    form of an integer below 2^32 - 1; such keys are enumerated first,
    in ascending numeric order, whatever the order of assignment. *)
Definition array_index (k : string) : option N :=
  match k with
  | EmptyString => None
  | String c rest =>
      if Ascii.eqb c "0" && negb (String.eqb rest EmptyString) then None
      else match digits_value 0 k with
           | Some n => if (n <=? 4294967294)%N then Some n else None
           | None => None
           end
  end.

Fixpoint prop_replace (o : JsObject) (k : string) (v : JsValue) : JsObject :=
  match o with
  | [] => []
  | (k', v') :: o' =>
      if String.eqb k' k then (k', v) :: o' else (k', v') :: prop_replace o' k v
  end.

Fixpoint prop_insert_index (o : JsObject) (i : N) (k : string) (v : JsValue)
  : JsObject :=
  match o with
  | [] => [(k, v)]
  | (k', v') :: o' =>
      match array_index k' with
      | Some j => if (i <? j)%N then (k, v) :: o
                  else (k', v') :: prop_insert_index o' i k v
      | None => (k, v) :: o
      end
  end.

(** [o[k] = v] on an object that inherits from [Object.prototype], as
    one created by [{}] does until its prototype is replaced. Assigning
    ["__proto__"] goes to the accessor inherited from [Object.prototype]
    and creates no own property. *)
Definition prop_set (o : JsObject) (k : string) (v : JsValue) : JsObject :=
  if String.eqb k "__proto__" then o
  else if has_prop o k then prop_replace o k v
  else match array_index k with
       | Some i => prop_insert_index o i k v
       | None => o ++ [(k, v)]
       end.

(** *** JSON.stringify *)

Definition hex_digit (n : N) : ascii :=
  match String.get (N.to_nat n) "0123456789abcdef" with
  | Some c => c
  | None => "0"%char
  end.

Definition json_escape_char (c : ascii) : string :=
  let n := N_of_ascii c in
  if Ascii.eqb c dquote then String backslash (String dquote EmptyString)
  else if Ascii.eqb c backslash then String backslash (String backslash EmptyString)
  else if (n =? 8)%N then String backslash "b"
  else if (n =? 9)%N then String backslash "t"
  else if (n =? 10)%N then String backslash "n"
  else if (n =? 12)%N then String backslash "f"
  else if (n =? 13)%N then String backslash "r"
  else if (n <? 32)%N
       then String backslash
              ("u00" ++ String (hex_digit (n / 16)) (String (hex_digit (n mod 16)) EmptyString))%string
  else String c EmptyString.

Fixpoint json_escape (s : string) : string :=
  match s with
  | EmptyString => EmptyString
  | String c s' => (json_escape_char c ++ json_escape s')%string
  end.

Definition json_quote (s : string) : string :=
  String dquote (json_escape s ++ String dquote EmptyString)%string.

Definition number_to_string (n : Z) : string :=
  NilZero.string_of_int (Z.to_int n).

(** SerializeJSONProperty: [None] stands for [undefined] (the property
    is then left out of an object and written as [null] in an array). *)
Fixpoint json_property (v : JsValue) : option string :=
  match v with
  | JUndefined => None
  | JNull => Some "null"
  | JBool true => Some "true"
  | JBool false => Some "false"
  | JNum n => Some (number_to_string n)
  | JStr s => Some (json_quote s)
  | JArr items =>
      Some ("[" ++ String.concat ","
                     (map (fun i => match json_property i with
                                    | Some s => s
                                    | None => "null"
                                    end) items) ++ "]")%string
  | JObj props =>
      Some ("{" ++ String.concat ","
                     (flat_map (fun kv => match json_property (snd kv) with
                                          | Some s => [(json_quote (fst kv) ++ ":" ++ s)%string]
                                          | None => []
                                          end) props) ++ "}")%string
  end.

(** [JSON.stringify(o)] for an object [o]. *)
Definition JSON_stringify (o : JsObject) : string :=
  match json_property (JObj o) with
  | Some s => s
  | None => "undefined"
  end.

End Js.

(** ** SHA-256 ([createHash('sha256').update(s).digest('hex')]) *)

Module Sha256.

Definition mask32 : Z := 4294967295.
Definition wrap32 (x : Z) : Z := Z.land x mask32.
Definition add32 (a b : Z) : Z := wrap32 (a + b).
Definition rotr (n x : Z) : Z :=
  Z.lor (Z.shiftr x n) (wrap32 (Z.shiftl x (32 - n))).
Definition shr (n x : Z) : Z := Z.shiftr x n.
Definition not32 (x : Z) : Z := Z.lxor x mask32.

Definition Ch (x y z : Z) : Z := Z.lxor (Z.land x y) (Z.land (not32 x) z).
Definition Maj (x y z : Z) : Z :=
  Z.lxor (Z.lxor (Z.land x y) (Z.land x z)) (Z.land y z).
Definition Sigma0 (x : Z) : Z := Z.lxor (Z.lxor (rotr 2 x) (rotr 13 x)) (rotr 22 x).
Definition Sigma1 (x : Z) : Z := Z.lxor (Z.lxor (rotr 6 x) (rotr 11 x)) (rotr 25 x).
Definition sigma0 (x : Z) : Z := Z.lxor (Z.lxor (rotr 7 x) (rotr 18 x)) (shr 3 x).
Definition sigma1 (x : Z) : Z := Z.lxor (Z.lxor (rotr 17 x) (rotr 19 x)) (shr 10 x).

Definition K : list Z :=
  [1116352408; 1899447441; 3049323471; 3921009573; 961987163; 1508970993;
   2453635748; 2870763221; 3624381080; 310598401; 607225278; 1426881987;
   1925078388; 2162078206; 2614888103; 3248222580; 3835390401; 4022224774;
   264347078; 604807628; 770255983; 1249150122; 1555081692; 1996064986;
   2554220882; 2821834349; 2952996808; 3210313671; 3336571891; 3584528711;
   113926993; 338241895; 666307205; 773529912; 1294757372; 1396182291;
   1695183700; 1986661051; 2177026350; 2456956037; 2730485921; 2820302411;
   3259730800; 3345764771; 3516065817; 3600352804; 4094571909; 275423344;
   430227734; 506948616; 659060556; 883997877; 958139571; 1322822218;
   1537002063; 1747873779; 1955562222; 2024104815; 2227730452; 2361852424;
   2428436474; 2756734187; 3204031479; 3329325298].

Definition H0 : list Z :=
  [1779033703; 3144134277; 1013904242; 2773480762;
   1359893119; 2600822924; 528734635; 1541459225].

Definition bytes_of_string (s : string) : list Z :=
  map (fun c => Z.of_N (N_of_ascii c)) (list_ascii_of_string s).

(** The [n] low-order bytes of [x], most significant first. *)
Fixpoint be_bytes (n : nat) (x : Z) : list Z :=
  match n with
  | O => []
  | S n' => Z.land (Z.shiftr x (8 * Z.of_nat n')) 255 :: be_bytes n' x
  end.

Definition pad (msg : list Z) : list Z :=
  let len := Z.of_nat (List.length msg) in
  msg ++ [128] ++ repeat 0 (Z.to_nat ((55 - len) mod 64)) ++ be_bytes 8 (8 * len).

Fixpoint words (n : nat) (bs : list Z) : list Z :=
  match n with
  | O => []
  | S n' =>
      match bs with
      | b0 :: b1 :: b2 :: b3 :: rest =>
          (Z.shiftl b0 24 + Z.shiftl b1 16 + Z.shiftl b2 8 + b3) :: words n' rest
      | _ => []
      end
  end.

Fixpoint blocks (n : nat) (ws : list Z) : list (list Z) :=
  match n with
  | O => []
  | S n' => firstn 16 ws :: blocks n' (skipn 16 ws)
  end.

(** Message schedule: 48 further words after the 16 of the block. *)
Fixpoint schedule (n : nat) (w : list Z) : list Z :=
  match n with
  | O => w
  | S n' =>
      let t   := List.length w in
      let at_ i := nth (t - i) w 0 in
      schedule n' (w ++ [add32 (add32 (sigma1 (at_ 2%nat)) (at_ 7%nat))
                               (add32 (sigma0 (at_ 15%nat)) (at_ 16%nat))])
  end.

Definition round (st : list Z) (kw : Z * Z) : list Z :=
  match st with
  | [a; b; c; d; e; f; g; h] =>
      let t1 := add32 (add32 (add32 h (Sigma1 e)) (Ch e f g))
                      (add32 (fst kw) (snd kw)) in
      let t2 := add32 (Sigma0 a) (Maj a b c) in
      [add32 t1 t2; a; b; c; add32 d t1; e; f; g]
  | _ => st
  end.

Definition compress (h : list Z) (block : list Z) : list Z :=
  let w := schedule 48 block in
  let st := fold_left round (combine K w) h in
  map (fun p => add32 (fst p) (snd p)) (combine h st).

Definition digest (s : string) : list Z :=
  let bs := pad (bytes_of_string s) in
  let ws := words (List.length bs / 4) bs in
  fold_left compress (blocks (List.length ws / 16) ws) H0.

Fixpoint hex_of_word (n : nat) (x : Z) : string :=
  match n with
  | O => EmptyString
  | S n' =>
      String (Js.hex_digit (Z.to_N (Z.land (Z.shiftr x (4 * Z.of_nat n')) 15)))
             (hex_of_word n' x)
  end.

Definition sha256_hex (s : string) : string :=
  String.concat EmptyString (map (hex_of_word 8) (digest s)).

End Sha256.

Import Js.

(** ** The insertion-ordered [Map<string, V>] *)

Module JsMap.
Section Ops.
Context {V : Type}.

(** Entries in iteration (insertion) order. *)
Definition t : Type := list (string * V).

Fixpoint get (m : t) (k : string) : option V :=
  match m with
  | [] => None
  | (k', v) :: m' => if String.eqb k' k then Some v else get m' k
  end.

Definition has (m : t) (k : string) : bool :=
  match get m k with Some _ => true | None => false end.

(** [m.set(k, v)]: an existing key keeps its place, a new key goes last. *)
Fixpoint set (m : t) (k : string) (v : V) : t :=
  match m with
  | [] => [(k, v)]
  | (k', v') :: m' => if String.eqb k' k then (k', v) :: m' else (k', v') :: set m' k v
  end.

Definition delete (m : t) (k : string) : t :=
  filter (fun kv => negb (String.eqb (fst kv) k)) m.

Definition size (m : t) : Z := Z.of_nat (List.length m).

Definition keys (m : t) : list string := map fst m.

End Ops.
Arguments t : clear implicits.
End JsMap.

(** ** Completions and settled promises *)

Inductive Completion (A : Type) : Type :=
| Normal (a : A)
| Throw (error : JsValue).
Arguments Normal {A} a.
Arguments Throw {A} error.

Inductive Settled : Type :=
| Resolved (value : JsValue)
| Rejected (reason : JsValue).

(** ** class ResponseCache *)

Module ResponseCache.

Record CacheEntry : Type := mkEntry {
  data : JsValue;
  timestamp : Z;
  ttl : Z;
  accessCount : Z;
  lastAccessed : Z
}.

(** The constructor argument: every field may be left out. *)
Record CacheOptions : Type := mkOptions {
  opt_ttl : option Z;
  opt_maxSize : option Z;
  opt_autoCleanup : option bool;
  opt_cleanupInterval : option Z
}.

(** [this.options] once the constructor has filled in the defaults. *)
Record Options : Type := mkResolved {
  default_ttl : Z;
  maxSize : Z;
  autoCleanup : bool;
  cleanupInterval : Z
}.

(** The object: the private map, the resolved options and the handle of
    the running interval timer ([None] for [null]; the handle is
    represented by the timer's period). *)
Record t : Type := mkCache {
  cache : JsMap.t CacheEntry;
  options : Options;
  cleanupTimer : option Z
}.

Definition with_cache (this : t) (m : JsMap.t CacheEntry) : t :=
  mkCache m (options this) (cleanupTimer this).

Definition with_timer (this : t) (h : option Z) : t :=
  mkCache (cache this) (options this) h.

Definition default {A : Type} (o : option A) (d : A) : A :=
  match o with Some a => a | None => d end.

Definition startCleanupTimer (this : t) : t :=
  with_timer this (Some (cleanupInterval (options this))).

(** The object that the constructor body builds. *)
Definition init (o : CacheOptions) : t :=
  let ttl := default (opt_ttl o) (5 * 60 * 1000) in
  let maxSize := default (opt_maxSize o) 100 in
  let autoCleanup := default (opt_autoCleanup o) true in
  let cleanupInterval := default (opt_cleanupInterval o) (60 * 1000) in
  let this := mkCache [] (mkResolved ttl maxSize autoCleanup cleanupInterval) None in
  if autoCleanup then startCleanupTimer this else this.

(** [new ResponseCache(o)]. The constructor body has no [throw] and
    calls nothing that throws: it completes normally on every argument. *)
Definition constructor_ (o : CacheOptions) : Completion t := Normal (init o).

Definition generateKey (operation : string) (params : JsObject) : string :=
  let sortedParams :=
    fold_left (fun acc key => prop_set acc key (prop_get params key))
              (Js.sort (Object_keys params)) [] in
  let paramString := JSON_stringify sortedParams in
  let hash := Sha256.sha256_hex (operation ++ ":" ++ paramString)%string in
  (operation ++ "_" ++ String.substring 0 16 hash)%string.

Definition get (this : t) (operation : string) (params : JsObject) (now : Z)
  : JsValue * t :=
  let key := generateKey operation params in
  match JsMap.get (cache this) key with
  | None => (JUndefined, this)
  | Some entry =>
      if now - timestamp entry >? ttl entry
      then (JUndefined, with_cache this (JsMap.delete (cache this) key))
      else
        let entry' := mkEntry (data entry) (timestamp entry) (ttl entry)
                              (accessCount entry + 1) now in
        (data entry, with_cache this (JsMap.set (cache this) key entry'))
  end.

(** One step of the scan in [evictLeastRecentlyUsed]; [None] as
    [lruTime] stands for [Infinity]. *)
Definition lru_scan (st : option string * option Z) (ke : string * CacheEntry)
  : option string * option Z :=
  let older := match snd st with
               | None => true
               | Some lruTime => lastAccessed (snd ke) <? lruTime
               end in
  if older then (Some (fst ke), Some (lastAccessed (snd ke))) else st.

Definition evictLeastRecentlyUsed (this : t) : t :=
  if JsMap.size (cache this) =? 0 then this
  else
    match fst (fold_left lru_scan (cache this) (None, None)) with
    | Some lruKey =>
        if truthy_string lruKey
        then with_cache this (JsMap.delete (cache this) lruKey)
        else this
    | None => this
    end.

Definition set (this : t) (operation : string) (params : JsObject)
  (data : JsValue) (customTtl : option Z) (now : Z) : t :=
  let key := generateKey operation params in
  let ttl := match customTtl with
             | Some c => if truthy_number c then c else default_ttl (options this)
             | None => default_ttl (options this)
             end in
  let entry := mkEntry data now ttl 1 now in
  let this1 := if JsMap.size (cache this) >=? maxSize (options this)
               then evictLeastRecentlyUsed this else this in
  with_cache this1 (JsMap.set (cache this1) key entry).

Definition delete (this : t) (operation : string) (params : JsObject)
  : bool * t :=
  let key := generateKey operation params in
  (JsMap.has (cache this) key, with_cache this (JsMap.delete (cache this) key)).

Definition clear (this : t) : t := with_cache this [].

Record StatsEntry : Type := mkStatsEntry {
  key : string;
  age : Z;
  stat_accessCount : Z
}.

Record Stats : Type := mkStats {
  stats_size : Z;
  stats_maxSize : Z;
  hitRate : Q;
  entries : list StatsEntry
}.

Definition getStats (this : t) (now : Z) : Stats * t :=
  let entries :=
    map (fun ke => mkStatsEntry (fst ke) (now - timestamp (snd ke))
                                (accessCount (snd ke))) (cache this) in
  let totalAccesses :=
    fold_left (fun sum entry => sum + stat_accessCount entry) entries 0 in
  let hitRate := if totalAccesses >? 0
                 then Qmake (JsMap.size (cache this)) (Z.to_pos totalAccesses)
                 else Qmake 0 1 in
  (mkStats (JsMap.size (cache this)) (maxSize (options this)) hitRate entries,
   this).

Definition cleanup (this : t) (now : Z) : t :=
  let keysToDelete :=
    fold_left (fun acc ke =>
                 if now - timestamp (snd ke) >? ttl (snd ke)
                 then acc ++ [fst ke] else acc) (cache this) [] in
  with_cache this (fold_left (fun m key => JsMap.delete m key) keysToDelete
                             (cache this)).

Definition stopCleanup (this : t) : t :=
  match cleanupTimer this with
  | Some _ => with_timer this None
  | None => this
  end.

Definition destroy (this : t) : t := clear (stopCleanup this).

(** The callback installed by [startCleanupTimer] firing once. *)
Definition timer_fires (this : t) (now : Z) : t :=
  match cleanupTimer this with
  | Some _ => cleanup this now
  | None => this
  end.

End ResponseCache.

Import ResponseCache.

(** ** withCache, invalidateCache *)

(** [handler] is given the number of times it has been invoked before
    and tells how the promise it returns settles; [calls] counts its
    invocations. [now_get] is the clock when [get] runs, [now_set] the
    clock when the [then] callback runs. *)
Definition withCache (cacheInstance : ResponseCache.t) (operation : string)
  (handler : nat -> Settled) (params : JsObject) (customTtl : option Z)
  (now_get now_set : Z) (calls : nat) : Settled * ResponseCache.t * nat :=
  let (cached, c1) := ResponseCache.get cacheInstance operation params now_get in
  if truthy cached then (Resolved cached, c1, calls)
  else
    match handler calls with
    | Resolved result =>
        (Resolved result,
         ResponseCache.set c1 operation params result customTtl now_set,
         S calls)
    | Rejected reason => (Rejected reason, c1, S calls)
    end.

Definition invalidateCache (cacheInstance : ResponseCache.t) (pattern : string)
  (now : Z) : Z * ResponseCache.t :=
  let (stats, c1) := ResponseCache.getStats cacheInstance now in
  (fold_left (fun invalidatedCount entry =>
                if includes (key entry) pattern
                then if String.eqb (split_first "_" (key entry)) pattern
                     then invalidatedCount + 1
                     else invalidatedCount
                else invalidatedCount) (entries stats) 0,
   c1).

(** ** Sequences of calls on one cache *)

Inductive Call : Type :=
| CallGet (operation : string) (params : JsObject) (now : Z)
| CallSet (operation : string) (params : JsObject) (data : JsValue)
          (customTtl : option Z) (now : Z)
| CallDelete (operation : string) (params : JsObject)
| CallClear
| CallGetStats (now : Z)
| CallStopCleanup
| CallDestroy
| TimerFires (now : Z).

Definition step (this : ResponseCache.t) (c : Call) : ResponseCache.t :=
  match c with
  | CallGet operation params now => snd (ResponseCache.get this operation params now)
  | CallSet operation params data customTtl now =>
      ResponseCache.set this operation params data customTtl now
  | CallDelete operation params => snd (ResponseCache.delete this operation params)
  | CallClear => ResponseCache.clear this
  | CallGetStats now => snd (ResponseCache.getStats this now)
  | CallStopCleanup => ResponseCache.stopCleanup this
  | CallDestroy => ResponseCache.destroy this
  | TimerFires now => ResponseCache.timer_fires this now
  end.

Definition run (this : ResponseCache.t) (calls : list Call) : ResponseCache.t :=
  fold_left step calls this.


(** ** The registry *)

Module CacheInstances.
Definition checks : ResponseCache.t :=
  init (mkOptions (Some (30 * 60 * 1000)) (Some 50) (Some true) None).
Definition recommendations : ResponseCache.t :=
  init (mkOptions (Some (10 * 60 * 1000)) (Some 100) (Some true) None).
Definition resources : ResponseCache.t :=
  init (mkOptions (Some (2 * 60 * 1000)) (Some 200) (Some true) None).
Definition organization : ResponseCache.t :=
  init (mkOptions (Some (15 * 60 * 1000)) (Some 25) (Some true) None).
End CacheInstances.

Module CacheKeys.
Definition LIST_CHECKS : string := "list_checks".
Definition LIST_TRUSTED_ADVISOR_CHECKS : string := "list_trusted_advisor_checks".
Definition GET_RECOMMENDATION : string := "get_recommendation".
Definition GET_TRUSTED_ADVISOR_RECOMMENDATION : string :=
  "get_trusted_advisor_recommendation".
Definition LIST_RECOMMENDATIONS : string := "list_recommendations".
Definition LIST_RECOMMENDATION_RESOURCES : string := "list_recommendation_resources".
Definition ORGANIZATION_RECOMMENDATIONS : string := "organization_recommendations".
End CacheKeys.

(** ** Predicates used in the statements *)

(** The representation invariant of the private map: keys are unique
    (it is a [Map]) and none is the empty string (every key is built by
    [generateKey]). *)
Definition keys_ok (m : JsMap.t CacheEntry) : Prop :=
  NoDup (JsMap.keys m) /\
  Forall (fun k => truthy_string k = true) (JsMap.keys m).

Definition well_formed (this : ResponseCache.t) : Prop := keys_ok (cache this).

(** The entry that [set] stores. *)
Definition fresh_entry (this : ResponseCache.t) (data : JsValue)
  (customTtl : option Z) (now : Z) : CacheEntry :=
  mkEntry data now
          (match customTtl with
           | Some c => if c =? 0 then default_ttl (options this) else c
           | None => default_ttl (options this)
           end) 1 now.

(** Two values are the same data: equal scalars, arrays that agree item
    by item, and objects that are equal as sets of key/value pairs,
    whatever the order in which their keys were inserted (keys being
    unique, the same number of properties and each property of the first
    found in the second), at every level of nesting. *)
Fixpoint same_pairs (v1 v2 : JsValue) {struct v1} : bool :=
  match v1, v2 with
  | JUndefined, JUndefined => true
  | JNull, JNull => true
  | JBool b1, JBool b2 => Bool.eqb b1 b2
  | JNum n1, JNum n2 => n1 =? n2
  | JStr s1, JStr s2 => String.eqb s1 s2
  | JArr items1, JArr items2 =>
      (fix items (l1 l2 : list JsValue) {struct l1} : bool :=
         match l1, l2 with
         | [], [] => true
         | x1 :: l1', x2 :: l2' => same_pairs x1 x2 && items l1' l2'
         | _, _ => false
         end) items1 items2
  | JObj props1, JObj props2 =>
      Nat.eqb (List.length props1) (List.length props2)
      && (fix pairs (o : list (string * JsValue)) {struct o} : bool :=
            match o with
            | [] => true
            | (k, v) :: o' =>
                match find (fun kv => String.eqb (fst kv) k) props2 with
                | Some (_, v') => same_pairs v v'
                | None => false
                end && pairs o'
            end) props1
  | _, _ => false
  end.

(** ** Fixtures *)

(** The cache and the requests of the unit tests
    ([ttl: 1000, maxSize: 3, autoCleanup: false]; operation ['op'] with
    [{ key: '1' }] ... [{ key: '4' }] and payloads [{ data: '1' }] ...). *)
Module Fixture.
Definition test_options : CacheOptions :=
  mkOptions (Some 1000) (Some 3) (Some false) None.
Definition test_cache : ResponseCache.t := init test_options.
Definition params_of (i : string) : JsObject := [("key", JStr i)].
Definition data_of (i : string) : JsValue := JObj [("data", JStr i)].
Definition p1 := params_of "1".
Definition p2 := params_of "2".
Definition p3 := params_of "3".
Definition p4 := params_of "4".
Definition d1 := data_of "1".
Definition d2 := data_of "2".
Definition d3 := data_of "3".
Definition d4 := data_of "4".

(** A producer that fails as the one of the unit test does, and
    producers that succeed with a fixed value. *)
Definition failing_handler : nat -> Settled :=
  fun _ => Rejected (JStr "Test error").
Definition constant_handler (v : JsValue) : nat -> Settled :=
  fun _ => Resolved v.

(** The test cache holding request 1, stored at time 0 (TTL 1000). *)
Definition cache_with_1 : ResponseCache.t :=
  ResponseCache.set test_cache "op" p1 d1 None 0.

(** The test cache filled to capacity at times 1, 2, 3. *)
Definition full_cache : ResponseCache.t :=
  ResponseCache.set
    (ResponseCache.set
       (ResponseCache.set test_cache "op" p1 d1 None 1) "op" p2 d2 None 2)
    "op" p3 d3 None 3.

(** Overwriting request 3 in the full cache at time 4. *)
Definition overwritten_cache : ResponseCache.t :=
  ResponseCache.set full_cache "op" p3 d3 None 4.

(** Two [withCache] calls in a row, at times 10 and 20, for request 1
    with a producer that resolves to the number [0]. *)
Definition zero_first : Settled * ResponseCache.t * nat :=
  withCache test_cache "op" (constant_handler (JNum 0)) p1 None 10 10 0.
Definition zero_second : Settled * ResponseCache.t * nat :=
  withCache (snd (fst zero_first)) "op" (constant_handler (JNum 0)) p1 None
            20 20 (snd zero_first).

(** A cache of capacity 2 holding request 1, stored at time 0 with a
    TTL of 10, and request 2, stored at time 50 with the default TTL;
    then request 3 is stored at time 100, when entry 1 has expired and
    entry 2 has not. *)
Definition dead_and_live : ResponseCache.t :=
  ResponseCache.set
    (ResponseCache.set (init (mkOptions (Some 1000) (Some 2) (Some false) None))
                       "op" p1 d1 (Some 10) 0)
    "op" p2 d2 None 50.
Definition after_dead_and_live : ResponseCache.t :=
  ResponseCache.set dead_and_live "op" p3 d3 None 100.

(** The LRU unit test with every call at the same clock reading 7. *)
Definition same_instant : ResponseCache.t :=
  ResponseCache.set
    (snd (ResponseCache.get
            (ResponseCache.set
               (ResponseCache.set
                  (ResponseCache.set test_cache "op" p1 d1 None 7)
                  "op" p2 d2 None 7)
               "op" p3 d3 None 7)
            "op" p1 7))
    "op" p4 d4 None 7.

(** The calls of the LRU unit test, at times 1 to 5. *)
Definition lru_calls : list Call :=
  [CallSet "op" p1 d1 None 1; CallSet "op" p2 d2 None 2;
   CallSet "op" p3 d3 None 3; CallGet "op" p1 4; CallSet "op" p4 d4 None 5].

(** An options object with a non-positive size and a non-positive TTL. *)
Definition invalid_options : CacheOptions :=
  mkOptions (Some (-5)) (Some 0) (Some false) None.

(** The same parameters twice, [{a: {x: 1, y: 2}, b: 1}] and
    [{b: 1, a: {y: 2, x: 1}}]: the keys were inserted in different
    orders, also inside the nested object. *)
Definition nested_xy : JsObject :=
  [("a", JObj [("x", JNum 1); ("y", JNum 2)]); ("b", JNum 1)].
Definition nested_yx : JsObject :=
  [("b", JNum 1); ("a", JObj [("y", JNum 2); ("x", JNum 1)])].
End Fixture.

(** ** Further predicates *)

Fixpoint all_chars (p : ascii -> bool) (s : string) : bool :=
  match s with
  | EmptyString => true
  | String c s' => p c && all_chars p s'
  end.

Definition lower_hex (c : ascii) : bool :=
  existsb (Ascii.eqb c) (list_ascii_of_string "0123456789abcdef").

(** The expiry test of [get] and of [cleanup]. *)
Definition expired (now : Z) (ke : string * CacheEntry) : bool :=
  now - timestamp (snd ke) >? ttl (snd ke).

(** ** Parameter utilities ([src/utils/parameterUtils.ts])

    Strings hold UTF-8 text. Argument objects are ordinary objects:
    a property that is not their own is looked up in
    [Object.prototype]. *)

Module ParameterUtils.

Inductive ErrorCode : Type := InvalidParams | InternalError.

(** A call either returns or throws [new McpError(code, message)]. *)
Inductive Outcome (A : Type) : Type :=
| Returns (a : A)
| Throws (code : ErrorCode) (message : string).
Arguments Returns {A} a.
Arguments Throws {A} code message.

Definition Object_prototype_names : list string :=
  ["constructor"; "__defineGetter__"; "__defineSetter__"; "hasOwnProperty";
   "__lookupGetter__"; "__lookupSetter__"; "isPrototypeOf";
   "propertyIsEnumerable"; "toString"; "valueOf"; "__proto__"; "toLocaleString"].

(** The value of [args[name]]: an own property's value, [undefined], or
    what [Object.prototype] supplies (a function, or the prototype object
    itself for ["__proto__"]): a value that is neither [undefined] nor
    [null], and not a string, a number, a boolean or an array. *)
Inductive Member : Type :=
| Own (value : JsValue)
| Inherited.

Definition member (args : JsObject) (name : string) : Member :=
  if has_prop args name then Own (prop_get args name)
  else if existsb (String.eqb name) Object_prototype_names then Inherited
  else Own JUndefined.

(** Three-byte encodings of the white space and line terminator code
    points U+1680, U+2000 to U+200A, U+2028, U+2029, U+202F, U+205F,
    U+3000 and U+FEFF. *)
Definition white_space_3 (n1 n2 n3 : N) : bool :=
  ((n1 =? 225) && (n2 =? 154) && (n3 =? 128)
   || (n1 =? 226) && (n2 =? 128)
      && ((128 <=? n3) && (n3 <=? 138) || (n3 =? 168) || (n3 =? 169) || (n3 =? 175))
   || (n1 =? 226) && (n2 =? 129) && (n3 =? 159)
   || (n1 =? 227) && (n2 =? 128) && (n3 =? 128)
   || (n1 =? 239) && (n2 =? 187) && (n3 =? 191))%N.

(** [value.trim().length === 0]: the string consists of white space and
    line terminators only (U+0009 to U+000D, U+0020, U+00A0 and the code
    points above). *)
Fixpoint blank (s : string) : bool :=
  match s with
  | EmptyString => true
  | String c1 s1 =>
      let n1 := N_of_ascii c1 in
      if ((9 <=? n1) && (n1 <=? 13) || (n1 =? 32))%N then blank s1
      else
        match s1 with
        | EmptyString => false
        | String c2 s2 =>
            let n2 := N_of_ascii c2 in
            if ((n1 =? 194) && (n2 =? 160))%N then blank s2
            else
              match s2 with
              | EmptyString => false
              | String c3 s3 =>
                  if white_space_3 n1 n2 (N_of_ascii c3) then blank s3 else false
              end
        end
  end.

Definition validateArgumentsObject (args : JsValue) : Outcome JsObject :=
  match args with
  | JArr _ => Throws InvalidParams "Arguments must be an object, not an array"
  | JObj props => Returns props
  | _ => Throws InvalidParams "Arguments must be a valid object"
  end.

Definition getRequiredStringParam (args : JsObject) (paramName : string)
  : Outcome string :=
  match member args paramName with
  | Own (JStr value) =>
      if blank value
      then Throws InvalidParams ("Parameter '" ++ paramName ++ "' cannot be empty")%string
      else Returns value
  | _ => Throws InvalidParams ("Parameter '" ++ paramName ++ "' must be a string")%string
  end.

Definition getOptionalStringParam (args : JsObject) (paramName : string)
  (defaultValue : JsValue) : Outcome JsValue :=
  match member args paramName with
  | Own JUndefined | Own JNull => Returns defaultValue
  | Own (JStr value) => Returns (JStr value)
  | _ => Throws InvalidParams ("Parameter '" ++ paramName ++ "' must be a string")%string
  end.

Definition getRequiredNumberParam (args : JsObject) (paramName : string)
  : Outcome Z :=
  match member args paramName with
  | Own (JNum value) => Returns value
  | _ => Throws InvalidParams
                ("Parameter '" ++ paramName ++ "' must be a valid number")%string
  end.

Definition getOptionalNumberParam (args : JsObject) (paramName : string)
  (defaultValue : JsValue) : Outcome JsValue :=
  match member args paramName with
  | Own JUndefined | Own JNull => Returns defaultValue
  | Own (JNum value) => Returns (JNum value)
  | _ => Throws InvalidParams
                ("Parameter '" ++ paramName ++ "' must be a valid number")%string
  end.

Definition getRequiredBooleanParam (args : JsObject) (paramName : string)
  : Outcome bool :=
  match member args paramName with
  | Own (JBool value) => Returns value
  | _ => Throws InvalidParams ("Parameter '" ++ paramName ++ "' must be a boolean")%string
  end.

Definition getOptionalBooleanParam (args : JsObject) (paramName : string)
  (defaultValue : JsValue) : Outcome JsValue :=
  match member args paramName with
  | Own JUndefined | Own JNull => Returns defaultValue
  | Own (JBool value) => Returns (JBool value)
  | _ => Throws InvalidParams ("Parameter '" ++ paramName ++ "' must be a boolean")%string
  end.

Definition getArrayParam (args : JsObject) (paramName : string) (required : bool)
  : Outcome JsValue :=
  match member args paramName with
  | Own JUndefined | Own JNull =>
      if required
      then Throws InvalidParams ("Parameter '" ++ paramName ++ "' is required")%string
      else Returns JUndefined
  | Own (JArr items) => Returns (JArr items)
  | _ => Throws InvalidParams ("Parameter '" ++ paramName ++ "' must be an array")%string
  end.

(** The [type] field; [TOther] is a value outside the four the
    TypeScript type allows (the [default] branch of the [switch]). *)
Inductive ParamType : Type :=
| TString | TNumber | TBoolean | TArray
| TOther (shown : string).

Record ParamSpec : Type := mkSpec {
  name : string;
  type : ParamType;
  required : option bool;
  defaultValue : option JsValue
}.

Definition lift {A : Type} (f : A -> JsValue) (o : Outcome A) : Outcome JsValue :=
  match o with
  | Returns a => Returns (f a)
  | Throws code message => Throws code message
  end.

(** The value one iteration of the loop assigns to [result[name]]. *)
Definition extract_one (validatedArgs : JsObject) (spec : ParamSpec)
  : Outcome JsValue :=
  let name := name spec in
  let required := default (required spec) false in
  let defaultValue := default (defaultValue spec) JUndefined in
  match type spec with
  | TString =>
      if required then lift JStr (getRequiredStringParam validatedArgs name)
      else getOptionalStringParam validatedArgs name defaultValue
  | TNumber =>
      if required then lift JNum (getRequiredNumberParam validatedArgs name)
      else getOptionalNumberParam validatedArgs name defaultValue
  | TBoolean =>
      if required then lift JBool (getRequiredBooleanParam validatedArgs name)
      else getOptionalBooleanParam validatedArgs name defaultValue
  | TArray => getArrayParam validatedArgs name required
  | TOther shown =>
      Throws InternalError ("Unsupported parameter type: " ++ shown)%string
  end.

(** The object [result] under construction. [prop_set] describes
    [o[k] = v] while [o] inherits from [Object.prototype]; here a declared
    name may be ["__proto__"], and may be declared more than once: the
    first such assignment can replace the prototype of [result], and what
    a later one does depends on the new prototype. [result] is therefore
    its prototype together with its own properties: [None] is
    [Object.prototype] (the prototype of [{}]), [Some v] the value that
    an assignment to ["__proto__"] installed ([null], an array or an
    object; arrays and objects inherit from [Object.prototype]). *)
Record Obj : Type := mkObj {
  prototype : option JsValue;
  own : JsObject
}.

Definition empty_object : Obj := mkObj None [].

(** What a lookup of ["__proto__"] finds along a prototype chain: the
    accessor of [Object.prototype], a data property of the installed
    prototype, or nothing below a [null] prototype. *)
Inductive Lookup : Type := Accessor | DataProperty | NotFound.

Definition inherited_proto (prototype : option JsValue) : Lookup :=
  match prototype with
  | None => Accessor
  | Some JNull => NotFound
  | Some (JObj props) =>
      if has_prop props "__proto__" then DataProperty else Accessor
  | Some _ => Accessor
  end.

(** [result[k] = v]. An own property is updated in place. Otherwise
    ["__proto__"] reaches the inherited accessor, whose setter replaces
    the prototype when [v] is an object or [null] and does nothing for
    any other value; when the accessor is no longer inherited the
    assignment creates an own property, as for every other key. *)
Definition assign (o : Obj) (k : string) (v : JsValue) : Obj :=
  if String.eqb k "__proto__" then
    if has_prop (own o) k then mkObj (prototype o) (prop_replace (own o) k v)
    else match inherited_proto (prototype o) with
         | Accessor =>
             match v with
             | JNull | JArr _ | JObj _ => mkObj (Some v) (own o)
             | _ => o
             end
         | DataProperty | NotFound => mkObj (prototype o) (own o ++ [(k, v)])
         end
  else mkObj (prototype o) (prop_set (own o) k v).

Fixpoint extract_loop (validatedArgs : JsObject) (paramSpecs : list ParamSpec)
  (result : Obj) : Outcome Obj :=
  match paramSpecs with
  | [] => Returns result
  | spec :: rest =>
      match extract_one validatedArgs spec with
      | Returns value =>
          extract_loop validatedArgs rest (assign result (name spec) value)
      | Throws code message => Throws code message
      end
  end.

(** The object returned is given by its own properties, which is what
    [Object.keys] and the reads of its callers see. *)
Definition extractParameters (args : JsValue) (paramSpecs : list ParamSpec)
  : Outcome JsObject :=
  match validateArgumentsObject args with
  | Returns validatedArgs =>
      match extract_loop validatedArgs paramSpecs empty_object with
      | Returns result => Returns (own result)
      | Throws code message => Throws code message
      end
  | Throws code message => Throws code message
  end.

Module CommonParamSpecs.
Definition checkId : list ParamSpec :=
  [mkSpec "checkId" TString (Some true) None].
Definition language : list ParamSpec :=
  [mkSpec "language" TString (Some false) (Some (JStr "en"))].
Definition accountId : list ParamSpec :=
  [mkSpec "accountId" TString (Some true) None].
Definition pagination : list ParamSpec :=
  [mkSpec "maxResults" TNumber (Some false) None;
   mkSpec "nextToken" TString (Some false) None].
Definition recommendation : list ParamSpec :=
  [mkSpec "checkId" TString (Some true) None;
   mkSpec "language" TString (Some false) (Some (JStr "en"));
   mkSpec "accountId" TString (Some false) None].
End CommonParamSpecs.

End ParameterUtils.

Import ParameterUtils.

(** ** The listRecommendations resource ([src/resources/listRecommendations.ts]) *)

Definition LIST_RECOMMENDATIONS_PARAMS : list ParamSpec :=
  CommonParamSpecs.language ++ CommonParamSpecs.pagination ++
  [mkSpec "awsService" TString (Some false) None;
   mkSpec "checkId" TString (Some false) None;
   mkSpec "pillar" TString (Some false) None;
   mkSpec "source" TString (Some false) None;
   mkSpec "status" TString (Some false) None;
   mkSpec "lifecycleStage" TString (Some false) None;
   mkSpec "awsAccountId" TString (Some false) None;
   mkSpec "region" TString (Some false) (Some (JStr "us-east-1"))].

(** ** Response utilities ([src/utils/responseUtils.ts]) *)

Module ResponseUtils.

(** *** Request identifiers *)

(** The state captured by the closure [generateRequestId]: the first
    eight characters of a random UUID, fixed when the module is loaded,
    and the counter. *)
Record RequestIdState : Type := mkIds {
  prefix : string;
  counter : Z
}.

Definition initial_ids (uuid : string) : RequestIdState :=
  mkIds (String.substring 0 8 uuid) 0.

Definition generateRequestId (st : RequestIdState) (now : Z)
  : string * RequestIdState :=
  let counter' := counter st + 1 in
  ((prefix st ++ "-" ++ number_to_string counter' ++ "-" ++ number_to_string now)%string,
   mkIds (prefix st) counter').

(** The identifiers of successive calls made at the clock readings
    [nows]. *)
Fixpoint request_ids (st : RequestIdState) (nows : list Z) : list string :=
  match nows with
  | [] => []
  | now :: rest =>
      let (id, st') := generateRequestId st now in
      id :: request_ids st' rest
  end.

(** *** Error classification *)

(** A caught value is represented by the object of the properties a
    read finds on it, own or inherited (the [name] of an [Error]
    instance included). *)

(** [v?.p] *)
Definition optional_read (v : JsValue) (p : string) : JsValue :=
  match v with
  | JObj props => prop_get props p
  | _ => JUndefined
  end.

(** [a || b] *)
Definition or_else (a b : JsValue) : JsValue := if truthy a then a else b.

Definition type_error (message : string) : JsValue :=
  JObj [("name", JStr "TypeError"); ("message", JStr message)].

(** [errorCode.includes(search)]: substring test on a string, membership
    test on an array; on any other value [includes] is [undefined] and
    the call throws. *)
Definition errorCode_includes (errorCode : JsValue) (search : string)
  : Completion bool :=
  match errorCode with
  | JStr s => Normal (includes s search)
  | JArr items =>
      Normal (existsb (fun item => match item with
                                   | JStr s => String.eqb s search
                                   | _ => false
                                   end) items)
  | _ => Throw (type_error "errorCode.includes is not a function")
  end.

(** [a || b] on two calls that may throw. *)
Definition either (a b : Completion bool) : Completion bool :=
  match a with
  | Normal true => Normal true
  | Normal false => b
  | Throw e => Throw e
  end.

Definition classifyError (error : JsValue) : Completion string :=
  let errorCode := or_else (optional_read error "name") (JStr EmptyString) in
  let test a b := either (errorCode_includes errorCode a)
                         (errorCode_includes errorCode b) in
  match test "AccessDenied" "Forbidden" with
  | Throw e => Throw e
  | Normal true => Normal "PERMISSION_ERROR"
  | Normal false =>
  match test "NotFound" "NoSuchKey" with
  | Throw e => Throw e
  | Normal true => Normal "NOT_FOUND"
  | Normal false =>
  match test "Throttling" "TooManyRequests" with
  | Throw e => Throw e
  | Normal true => Normal "RATE_LIMIT"
  | Normal false =>
  match test "InternalError" "ServiceUnavailable" with
  | Throw e => Throw e
  | Normal true => Normal "SERVICE_ERROR"
  | Normal false =>
  match test "InvalidParameter" "ValidationException" with
  | Throw e => Throw e
  | Normal true => Normal "VALIDATION_ERROR"
  | Normal false => Normal "UNKNOWN_ERROR"
  end end end end end.

(** [[429, 500, 502, 503, 504].includes(httpStatusCode)] *)
Definition retryable_status (httpStatusCode : JsValue) : bool :=
  match httpStatusCode with
  | JNum n => existsb (Z.eqb n) [429; 500; 502; 503; 504]
  | _ => false
  end.

Definition isRetryableError (error : JsValue) : Completion bool :=
  let errorCode := or_else (optional_read error "name") (JStr EmptyString) in
  let httpStatusCode :=
    optional_read (optional_read error "$metadata") "httpStatusCode" in
  match either (errorCode_includes errorCode "Throttling")
               (either (errorCode_includes errorCode "InternalError")
                       (errorCode_includes errorCode "ServiceUnavailable")) with
  | Throw e => Throw e
  | Normal true => Normal true
  | Normal false =>
      if truthy httpStatusCode && retryable_status httpStatusCode
      then Normal true
      else Normal false
  end.

End ResponseUtils.

Import ResponseUtils.

(** ** The handler of listRecommendations

    What the handler of the resource is given from outside is a
    parameter here: the producer passed to [withCache] (it builds the
    command from the extracted parameters, sends it to AWS and shapes
    the answer with [createListResponse]), [formatMcpResponse] and
    [handleAwsError]. [cache] is the state of
    [CacheInstances.recommendations]. *)

(** What the [catch] clause receives: the [McpError] thrown by
    [extractParameters] or the reason of the rejected promise. *)
Inductive Caught : Type :=
| CaughtMcpError (code : ErrorCode) (message : string)
| CaughtReason (reason : JsValue).

(** [Array.isArray(x) ? x[0] : x] *)
Definition first_if_array (x : JsValue) : JsValue :=
  match x with
  | JArr items => nth 0 items JUndefined
  | _ => x
  end.

Definition fallback_awsAccountId (_params : JsValue) : JsValue :=
  first_if_array (optional_read _params "awsAccountId").

Definition fallback_region (_params : JsValue) : JsValue :=
  match optional_read _params "region" with
  | JArr items => nth 0 items JUndefined
  | region => or_else region (JStr "us-east-1")
  end.

Section ListRecommendations.
Variable produce : JsObject -> nat -> Settled.
Variable Response : Type.
Variable formatMcpResponse : string -> JsValue -> Response.
Variable handleAwsError : Caught -> string -> JsValue -> JsValue -> JsValue.

Definition listRecommendations_handler (href : string) (_params : JsValue)
  (cache : ResponseCache.t) (now_get now_set : Z) (calls : nat)
  : Response * ResponseCache.t * nat :=
  let on_error caught :=
    formatMcpResponse href
      (handleAwsError caught "listRecommendations"
                      (fallback_awsAccountId _params) (fallback_region _params)) in
  match extractParameters _params LIST_RECOMMENDATIONS_PARAMS with
  | Returns params =>
      match withCache cache CacheKeys.LIST_RECOMMENDATIONS (produce params) params
                      None now_get now_set calls with
      | (Resolved result, cache', calls') =>
          (formatMcpResponse href result, cache', calls')
      | (Rejected reason, cache', calls') =>
          (on_error (CaughtReason reason), cache', calls')
      end
  | Throws code message => (on_error (CaughtMcpError code message), cache, calls)
  end.

End ListRecommendations.

(** ** Sample inputs *)

Module Sample.
(** A request for one check, alone and with an undeclared argument. *)
Definition check_args : JsObject := [("checkId", JStr "check-1")].
Definition check_args_extra : JsObject :=
  [("verbose", JBool true); ("checkId", JStr "check-1")].

(** Two ways of asking for the recommendations in state [warning], and
    the parameters both extract to. *)
Definition warning_args : JsValue := JObj [("status", JStr "warning")].
Definition warning_args_explicit : JsValue :=
  JObj [("language", JStr "en"); ("status", JStr "warning"); ("debug", JNum 1)].
Definition warning_params : JsObject :=
  [("language", JStr "en"); ("maxResults", JUndefined); ("nextToken", JUndefined);
   ("awsService", JUndefined); ("checkId", JUndefined); ("pillar", JUndefined);
   ("source", JUndefined); ("status", JStr "warning");
   ("lifecycleStage", JUndefined); ("awsAccountId", JUndefined);
   ("region", JStr "us-east-1")].

(** Arguments parsed from JSON text can own a property ["__proto__"]. *)
Definition proto_args : JsValue :=
  JObj [("__proto__", JNull); ("status", JStr "warning"); ("debug", JNum 1)].
Definition proto_specs : list ParamSpec :=
  [mkSpec "__proto__" TString None (Some JNull);
   mkSpec "status" TString (Some true) None;
   mkSpec "nextToken" TString None None].
Definition proto_params : JsObject :=
  [("status", JStr "warning"); ("nextToken", JUndefined)].

(** Stand-ins for the collaborators of the handler. *)
Definition empty_list_response : JsValue :=
  JObj [("items", JArr []); ("totalCount", JNum 0)].
Definition produce_empty_list : JsObject -> nat -> Settled :=
  fun _ _ => Resolved empty_list_response.
Definition format (href : string) (data : JsValue) : JsValue :=
  JObj [("uri", JStr href); ("data", data)].
Definition describe_error (caught : Caught) (operationType : string)
  (awsAccountId region : JsValue) : JsValue :=
  JObj [("error", JStr ("Failed to execute " ++ operationType)%string);
        ("region", region)].

(** Errors as the AWS SDK and the runtime produce them. *)
Definition internal_error : JsValue :=
  JObj [("name", JStr "InternalErrorException");
        ("message", JStr "We encountered an internal error")].
Definition numeric_name : JsValue := JObj [("name", JNum 5)].
Definition bare_503 : JsValue :=
  JObj [("$metadata", JObj [("httpStatusCode", JNum 503)])].

Definition ids : RequestIdState :=
  initial_ids "123e4567-e89b-12d3-a456-426614174000".
End Sample.

Arguments Sha256.sha256_hex : simpl never.
Arguments JSON_stringify : simpl never.
Arguments generateKey : simpl never.

(** * Properties *)

(** ** Facts about the insertion-ordered map *)

Section JsMapFacts.
Context {V : Type}.
Implicit Types (m : JsMap.t V) (k : string) (v : V).

Lemma map_get_set_same m k v : JsMap.get (JsMap.set m k v) k = Some v.
Proof.
  induction m as [|[k' v'] m IH]; simpl.
  - now rewrite String.eqb_refl.
  - destruct (String.eqb k' k) eqn:E; simpl; rewrite E; auto.
Qed.

Lemma map_get_set_other m k k' v :
  k <> k' -> JsMap.get (JsMap.set m k v) k' = JsMap.get m k'.
Proof.
  intros Hne. induction m as [|[k0 v0] m IH]; simpl.
  - apply String.eqb_neq in Hne. now rewrite Hne.
  - destruct (String.eqb k0 k) eqn:E; simpl.
    + apply String.eqb_eq in E. subst k0.
      apply String.eqb_neq in Hne. now rewrite Hne.
    + now rewrite IH.
Qed.

Lemma map_get_delete_same m k : JsMap.get (JsMap.delete m k) k = None.
Proof.
  unfold JsMap.delete.
  induction m as [|[k' v'] m IH]; simpl; auto.
  destruct (String.eqb k' k) eqn:E; simpl; auto.
  now rewrite E.
Qed.

Lemma map_get_delete_other m k k' :
  k <> k' -> JsMap.get (JsMap.delete m k) k' = JsMap.get m k'.
Proof.
  intros Hne. unfold JsMap.delete.
  induction m as [|[k0 v0] m IH]; simpl; auto.
  destruct (String.eqb k0 k) eqn:E; simpl.
  - apply String.eqb_eq in E. subst k0.
    apply String.eqb_neq in Hne. now rewrite Hne.
  - now rewrite IH.
Qed.

Lemma map_get_in_keys m k v : JsMap.get m k = Some v -> In k (JsMap.keys m).
Proof.
  induction m as [|[k' v'] m IH]; simpl; [discriminate|].
  destruct (String.eqb_spec k' k); auto.
Qed.

Lemma map_get_none_keys m k : JsMap.get m k = None <-> ~ In k (JsMap.keys m).
Proof.
  induction m as [|[k' v'] m IH]; simpl.
  - tauto.
  - destruct (String.eqb_spec k' k).
    + split; [discriminate | tauto].
    + rewrite IH. tauto.
Qed.

Lemma map_delete_absent m k : JsMap.get m k = None -> JsMap.delete m k = m.
Proof.
  unfold JsMap.delete.
  induction m as [|[k' v'] m IH]; simpl; auto.
  destruct (String.eqb k' k) eqn:E; [discriminate|].
  intros H. simpl. now rewrite IH.
Qed.

Lemma map_delete_length_le m k :
  (List.length (JsMap.delete m k) <= List.length m)%nat.
Proof. apply filter_length_le. Qed.

Lemma map_delete_length_lt m k :
  In k (JsMap.keys m) ->
  (List.length (JsMap.delete m k) < List.length m)%nat.
Proof.
  unfold JsMap.delete, JsMap.keys.
  induction m as [|[k' v'] m IH]; simpl; [tauto|].
  destruct (String.eqb_spec k' k) as [->|Hne]; simpl.
  - intros _. pose proof (filter_length_le (fun kv : string * V => negb (String.eqb (fst kv) k)) m).
    lia.
  - intros [H|H]; [congruence|]. specialize (IH H). lia.
Qed.

Lemma map_set_length_present m k v v0 :
  JsMap.get m k = Some v0 -> List.length (JsMap.set m k v) = List.length m.
Proof.
  induction m as [|[k' v'] m IH]; simpl; [discriminate|].
  destruct (String.eqb k' k); simpl; auto.
Qed.

Lemma map_set_length_absent m k v :
  JsMap.get m k = None -> List.length (JsMap.set m k v) = S (List.length m).
Proof.
  induction m as [|[k' v'] m IH]; simpl; auto.
  destruct (String.eqb k' k); simpl; [discriminate | auto].
Qed.

Lemma map_set_length_le m k v :
  (List.length (JsMap.set m k v) <= S (List.length m))%nat.
Proof.
  destruct (JsMap.get m k) eqn:E.
  - erewrite map_set_length_present by eauto. lia.
  - rewrite map_set_length_absent by auto. lia.
Qed.

Lemma map_set_keys_present m k v v0 :
  JsMap.get m k = Some v0 -> JsMap.keys (JsMap.set m k v) = JsMap.keys m.
Proof.
  unfold JsMap.keys.
  induction m as [|[k' v'] m IH]; simpl; [discriminate|].
  destruct (String.eqb k' k); simpl; auto.
  intros H. now rewrite IH.
Qed.

Lemma map_set_keys_absent m k v :
  JsMap.get m k = None -> JsMap.keys (JsMap.set m k v) = JsMap.keys m ++ [k].
Proof.
  unfold JsMap.keys.
  induction m as [|[k' v'] m IH]; simpl; auto.
  destruct (String.eqb k' k); simpl; [discriminate|].
  intros H. now rewrite IH.
Qed.

Lemma map_delete_keys m k :
  JsMap.keys (JsMap.delete m k) =
  filter (fun k' => negb (String.eqb k' k)) (JsMap.keys m).
Proof.
  unfold JsMap.keys, JsMap.delete.
  induction m as [|[k' v'] m IH]; simpl; auto.
  destruct (String.eqb k' k); simpl; now rewrite IH.
Qed.

Lemma map_delete_app m1 m2 k :
  JsMap.delete (m1 ++ m2) k = JsMap.delete m1 k ++ JsMap.delete m2 k.
Proof. apply filter_app. Qed.

Lemma map_delete_notin m k : ~ In k (JsMap.keys m) -> JsMap.delete m k = m.
Proof. intros H. apply map_delete_absent. now apply map_get_none_keys. Qed.

(** Deleting the key of one binding of a duplicate-free map removes that
    binding and nothing else. *)
Lemma map_delete_middle m1 m2 k v :
  NoDup (JsMap.keys (m1 ++ (k, v) :: m2)) ->
  JsMap.delete (m1 ++ (k, v) :: m2) k = m1 ++ m2.
Proof.
  unfold JsMap.keys. rewrite map_app. simpl. intros H.
  apply NoDup_remove_2 in H. rewrite in_app_iff in H.
  rewrite map_delete_app.
  change ((k, v) :: m2) with ([(k, v)] ++ m2). rewrite map_delete_app.
  rewrite (map_delete_notin m1), (map_delete_notin m2)
    by (unfold JsMap.keys; tauto).
  unfold JsMap.delete. simpl. now rewrite String.eqb_refl.
Qed.

End JsMapFacts.

(** ** Keys *)

Lemma generateKey_truthy operation params :
  truthy_string (generateKey operation params) = true.
Proof.
  unfold generateKey, truthy_string.
  destruct operation; reflexivity.
Qed.

Lemma keys_ok_nil : keys_ok [].
Proof. split; constructor. Qed.

Lemma keys_ok_delete m k : keys_ok m -> keys_ok (JsMap.delete m k).
Proof.
  intros [Hnd Hne]. unfold keys_ok. rewrite map_delete_keys. split.
  - now apply NoDup_filter.
  - rewrite Forall_forall in *. intros x Hx. apply filter_In in Hx. apply Hne, Hx.
Qed.

Lemma keys_ok_set m k e :
  truthy_string k = true -> keys_ok m -> keys_ok (JsMap.set m k e).
Proof.
  intros Hk [Hnd Hne]. unfold keys_ok.
  destruct (JsMap.get m k) eqn:E.
  - erewrite map_set_keys_present by eauto. now split.
  - rewrite map_set_keys_absent by auto. split.
    + apply NoDup_app; [assumption | |].
      * constructor; [intros [] | constructor].
      * intros x Hx [<-|[]]. now apply map_get_none_keys in E.
    + apply Forall_app. split; auto.
Qed.

(** ** The eviction scan *)

Lemma lru_scan_some k0 t0 k1 e1 :
  lru_scan (Some k0, Some t0) (k1, e1) =
  if lastAccessed e1 <? t0 then (Some k1, Some (lastAccessed e1))
  else (Some k0, Some t0).
Proof. reflexivity. Qed.

Lemma lru_scan_none k1 e1 :
  lru_scan (None, None) (k1, e1) = (Some k1, Some (lastAccessed e1)).
Proof. reflexivity. Qed.

Lemma lru_scan_from m k0 t0 :
  (fold_left lru_scan m (Some k0, Some t0) = (Some k0, Some t0) /\
   forall ke, In ke m -> t0 <= lastAccessed (snd ke))
  \/
  (exists m1 k e m2,
      m = m1 ++ (k, e) :: m2 /\
      fold_left lru_scan m (Some k0, Some t0) = (Some k, Some (lastAccessed e)) /\
      lastAccessed e < t0 /\
      (forall ke, In ke m1 -> lastAccessed e < lastAccessed (snd ke)) /\
      (forall ke, In ke m2 -> lastAccessed e <= lastAccessed (snd ke))).
Proof.
  revert k0 t0. induction m as [|[k1 e1] m IH]; intros k0 t0.
  - left. split; [reflexivity | intros ke []].
  - cbn [fold_left]. rewrite lru_scan_some.
    destruct (Z.ltb_spec (lastAccessed e1) t0) as [Hlt|Hge].
    + right. destruct (IH k1 (lastAccessed e1))
        as [[Hf Hall] | (m1 & k & e & m2 & -> & Hf & Hlt' & H1 & H2)].
      * exists [], k1, e1, m.
        split; [reflexivity|]. split; [exact Hf|]. split; [exact Hlt|].
        split; [intros ke [] | exact Hall].
      * exists ((k1, e1) :: m1), k, e, m2.
        split; [reflexivity|]. split; [exact Hf|]. split; [lia|].
        split; [|exact H2].
        intros ke [<-|Hin]; cbn [snd]; auto.
    + destruct (IH k0 t0)
        as [[Hf Hall] | (m1 & k & e & m2 & -> & Hf & Hlt' & H1 & H2)].
      * left. split; [exact Hf|]. intros ke [<-|Hin]; cbn [snd]; auto.
      * right. exists ((k1, e1) :: m1), k, e, m2.
        split; [reflexivity|]. split; [exact Hf|]. split; [exact Hlt'|].
        split; [|exact H2].
        intros ke [<-|Hin]; cbn [snd]; auto. lia.
Qed.

(** On a non-empty map the scan selects the first binding, in iteration
    order, whose [lastAccessed] is minimal. *)
Lemma lru_scan_choice m :
  m <> [] ->
  exists m1 k e m2,
    m = m1 ++ (k, e) :: m2 /\
    fst (fold_left lru_scan m (None, None)) = Some k /\
    (forall ke, In ke m1 -> lastAccessed e < lastAccessed (snd ke)) /\
    (forall ke, In ke m2 -> lastAccessed e <= lastAccessed (snd ke)).
Proof.
  destruct m as [|[k1 e1] m]; [congruence | intros _].
  cbn [fold_left]. rewrite lru_scan_none.
  destruct (lru_scan_from m k1 (lastAccessed e1))
    as [[Hf Hall] | (m1 & k & e & m2 & -> & Hf & Hlt' & H1 & H2)].
  - exists [], k1, e1, m. rewrite Hf.
    split; [reflexivity|]. split; [reflexivity|].
    split; [intros ke [] | exact Hall].
  - exists ((k1, e1) :: m1), k, e, m2. rewrite Hf.
    split; [reflexivity|]. split; [reflexivity|]. split; [|exact H2].
    intros ke [<-|Hin]; cbn [snd]; auto.
Qed.

Lemma size_zero_iff (m : JsMap.t CacheEntry) :
  (JsMap.size m =? 0) = true <-> m = [].
Proof.
  unfold JsMap.size. destruct m; simpl; split; intros H;
    try reflexivity; discriminate.
Qed.

(** What [evictLeastRecentlyUsed] does to a well-formed, non-empty
    cache. *)
Lemma evict_spec this :
  well_formed this -> cache this <> [] ->
  exists m1 k e m2,
    cache this = m1 ++ (k, e) :: m2 /\
    (forall ke, In ke m1 -> lastAccessed e < lastAccessed (snd ke)) /\
    (forall ke, In ke m2 -> lastAccessed e <= lastAccessed (snd ke)) /\
    evictLeastRecentlyUsed this = with_cache this (m1 ++ m2).
Proof.
  intros [Hnd Hne] Hnil.
  destruct (lru_scan_choice (cache this) Hnil) as (m1 & k & e & m2 & Hm & Hf & H1 & H2).
  exists m1, k, e, m2.
  split; [exact Hm|]. split; [exact H1|]. split; [exact H2|].
  unfold evictLeastRecentlyUsed.
  destruct (JsMap.size (cache this) =? 0) eqn:Hz.
  - apply size_zero_iff in Hz. congruence.
  - rewrite Hf.
    assert (Hk : truthy_string k = true).
    { rewrite Forall_forall in Hne. apply Hne. rewrite Hm.
      unfold JsMap.keys. rewrite map_app. apply in_or_app. right. now left. }
    rewrite Hk. f_equal. rewrite Hm. apply map_delete_middle. now rewrite <- Hm.
Qed.

Lemma evict_options this : options (evictLeastRecentlyUsed this) = options this.
Proof.
  unfold evictLeastRecentlyUsed.
  destruct (JsMap.size (cache this) =? 0); auto.
  destruct (fst _); auto. destruct (truthy_string _); auto.
Qed.

Lemma evict_well_formed this :
  well_formed this -> well_formed (evictLeastRecentlyUsed this).
Proof.
  intros H. unfold evictLeastRecentlyUsed.
  destruct (JsMap.size (cache this) =? 0); auto.
  destruct (fst _); auto. destruct (truthy_string _); auto.
  now apply keys_ok_delete.
Qed.

(** ** Every method preserves the options and the representation invariant *)

Ltac case_get :=
  unfold ResponseCache.get;
  match goal with
  | |- context [JsMap.get (cache ?c) ?k] =>
      let E := fresh "Hget" in
      destruct (JsMap.get (cache c) k) as [?entry|] eqn:E
  end;
  [ match goal with
    | |- context [?a >? ?b] =>
        let X := fresh "Hexp" in destruct (Z.gtb_spec a b) as [X|X]
    end | ]; cbn [fst snd cache options cleanupTimer with_cache].

Lemma get_options this operation params now :
  options (snd (ResponseCache.get this operation params now)) = options this.
Proof. case_get; reflexivity. Qed.

Lemma get_well_formed this operation params now :
  well_formed this ->
  well_formed (snd (ResponseCache.get this operation params now)).
Proof.
  intros H. case_get; unfold well_formed; cbn [cache with_cache]; auto.
  - now apply keys_ok_delete.
  - apply keys_ok_set; auto. apply generateKey_truthy.
Qed.

Lemma get_size_le this operation params now :
  JsMap.size (cache (snd (ResponseCache.get this operation params now)))
  <= JsMap.size (cache this).
Proof.
  unfold JsMap.size. case_get; try lia.
  - pose proof (map_delete_length_le (cache this) (generateKey operation params)). lia.
  - erewrite map_set_length_present by eauto. lia.
Qed.

Lemma set_options this operation params data customTtl now :
  options (ResponseCache.set this operation params data customTtl now)
  = options this.
Proof.
  unfold ResponseCache.set. cbn [options with_cache].
  destruct (_ >=? _); auto using evict_options.
Qed.

Lemma set_well_formed this operation params data customTtl now :
  well_formed this ->
  well_formed (ResponseCache.set this operation params data customTtl now).
Proof.
  intros H. unfold ResponseCache.set, well_formed. cbn [cache with_cache].
  apply keys_ok_set; [apply generateKey_truthy|].
  destruct (_ >=? _); auto. now apply evict_well_formed.
Qed.

Lemma evict_size this :
  well_formed this -> cache this <> [] ->
  JsMap.size (cache (evictLeastRecentlyUsed this)) = JsMap.size (cache this) - 1.
Proof.
  intros Hwf Hne.
  destruct (evict_spec this Hwf Hne) as (m1 & k & e & m2 & Hm & _ & _ & ->).
  cbn [cache with_cache]. rewrite Hm. unfold JsMap.size.
  rewrite !length_app. cbn [List.length]. lia.
Qed.

Lemma set_size_bound this operation params data customTtl now :
  well_formed this ->
  1 <= maxSize (options this) ->
  JsMap.size (cache this) <= maxSize (options this) ->
  JsMap.size (cache (ResponseCache.set this operation params data customTtl now))
  <= maxSize (options this).
Proof.
  intros Hwf Hpos Hle. unfold ResponseCache.set. cbn [cache with_cache].
  match goal with |- context [JsMap.set ?m ?k ?e] =>
    pose proof (map_set_length_le m k e) as Hset end.
  unfold JsMap.size in *.
  destruct (Z.geb_spec (Z.of_nat (List.length (cache this))) (maxSize (options this)))
    as [Hfull|Hroom].
  - assert (Hne : cache this <> []) by (intros E; rewrite E in Hfull; simpl in Hfull; lia).
    pose proof (evict_size this Hwf Hne) as Hev. unfold JsMap.size in Hev. lia.
  - lia.
Qed.

Lemma fold_delete_keys_ok ks (m : JsMap.t CacheEntry) :
  keys_ok m -> keys_ok (fold_left (fun m key => JsMap.delete m key) ks m).
Proof.
  revert m. induction ks as [|k ks IH]; intros m H; simpl; auto.
  apply IH. now apply keys_ok_delete.
Qed.

Lemma fold_delete_length ks (m : JsMap.t CacheEntry) :
  (List.length (fold_left (fun m key => JsMap.delete m key) ks m)
   <= List.length m)%nat.
Proof.
  revert m. induction ks as [|k ks IH]; intros m; simpl; auto.
  etransitivity; [apply IH | apply map_delete_length_le].
Qed.

(** The invariant carried along a run: the options never change, the
    map stays well formed and within the cap. *)
Lemma step_invariant this c :
  1 <= maxSize (options this) ->
  well_formed this ->
  JsMap.size (cache this) <= maxSize (options this) ->
  options (step this c) = options this /\
  well_formed (step this c) /\
  JsMap.size (cache (step this c)) <= maxSize (options this).
Proof.
  intros Hpos Hwf Hle. destruct c; cbn [step].
  - split; [apply get_options|]. split; [now apply get_well_formed|].
    etransitivity; [apply get_size_le | assumption].
  - split; [apply set_options|]. split; [now apply set_well_formed|].
    now apply set_size_bound.
  - unfold ResponseCache.delete. cbn [snd options cache with_cache].
    split; [reflexivity|]. split; [now apply keys_ok_delete|].
    pose proof (map_delete_length_le (cache this) (generateKey operation params)).
    unfold JsMap.size in *. lia.
  - unfold ResponseCache.clear. cbn [options cache with_cache].
    split; [reflexivity|]. split; [apply keys_ok_nil|]. unfold JsMap.size. simpl. lia.
  - cbn [ResponseCache.getStats snd]. auto.
  - unfold ResponseCache.stopCleanup. destruct (cleanupTimer this); auto.
  - unfold ResponseCache.destroy, ResponseCache.clear. cbn [options cache with_cache].
    split; [unfold stopCleanup; destruct (cleanupTimer this); reflexivity|].
    split; [apply keys_ok_nil|]. unfold JsMap.size. simpl. lia.
  - unfold ResponseCache.timer_fires. destruct (cleanupTimer this); auto.
    unfold ResponseCache.cleanup. cbn [options cache with_cache].
    split; [reflexivity|]. split; [now apply fold_delete_keys_ok|].
    match goal with |- context [fold_left _ ?ks (cache this)] =>
      pose proof (fold_delete_length ks (cache this)) end.
    unfold JsMap.size in *. lia.
Qed.

Lemma run_invariant calls : forall this,
  1 <= maxSize (options this) ->
  well_formed this ->
  JsMap.size (cache this) <= maxSize (options this) ->
  options (run this calls) = options this /\
  well_formed (run this calls) /\
  JsMap.size (cache (run this calls)) <= maxSize (options this).
Proof.
  induction calls as [|c calls IH]; intros this Hpos Hwf Hle.
  - cbn. auto.
  - destruct (step_invariant this c Hpos Hwf Hle) as (Ho & Hw & Hs).
    unfold run. cbn [fold_left]. fold (run (step this c) calls).
    assert (Hpos' : 1 <= maxSize (options (step this c))) by now rewrite Ho.
    assert (Hs' : JsMap.size (cache (step this c))
                  <= maxSize (options (step this c))) by now rewrite Ho.
    destruct (IH (step this c) Hpos' Hw Hs') as (Ho' & Hw' & Hs'').
    rewrite Ho in Ho', Hs''.
    split; [exact Ho' | split; [exact Hw' | exact Hs'']].
Qed.

Lemma init_well_formed o : well_formed (init o).
Proof.
  unfold init. destruct (default (opt_autoCleanup o) true); apply keys_ok_nil.
Qed.

Lemma init_cache o : cache (init o) = [].
Proof. unfold init. destruct (default (opt_autoCleanup o) true); reflexivity. Qed.

(** C5. A cache constructed with [maxSize >= 1] never holds more than
    [maxSize] entries, whatever sequence of [get], [set], [delete],
    [clear], [getStats], [stopCleanup], [destroy] calls and timer sweeps
    is run on it; the bound therefore holds after every [set] of every
    run. *)
Theorem size_never_exceeds_maxSize (o : CacheOptions) (this : ResponseCache.t)
  (calls : list Call) :
  constructor_ o = Normal this ->
  1 <= maxSize (options this) ->
  maxSize (options (run this calls)) = maxSize (options this) /\
  JsMap.size (cache (run this calls)) <= maxSize (options this).
Proof.
  intros Hnew Hpos. injection Hnew as <-.
  destruct (run_invariant calls (init o) Hpos (init_well_formed o)) as (Ho & _ & Hs).
  - rewrite init_cache. unfold JsMap.size. simpl. lia.
  - rewrite Ho. auto.
Qed.

(** ** Lazy expiry on read *)

(** C7. When the key is bound to an entry whose age exceeds its TTL,
    [get] answers [undefined] and the entry is gone from the map
    afterwards (the sweep is not involved); when the age is at most the
    TTL, [get] answers the stored value. *)
Theorem get_expires_lazily (this : ResponseCache.t) (operation : string)
  (params : JsObject) (now : Z) (entry : CacheEntry) :
  JsMap.get (cache this) (generateKey operation params) = Some entry ->
  (now - timestamp entry > ttl entry ->
     fst (ResponseCache.get this operation params now) = JUndefined /\
     cache (snd (ResponseCache.get this operation params now))
       = JsMap.delete (cache this) (generateKey operation params) /\
     JsMap.get (cache (snd (ResponseCache.get this operation params now)))
               (generateKey operation params) = None) /\
  (now - timestamp entry <= ttl entry ->
     fst (ResponseCache.get this operation params now) = data entry).
Proof.
  intros Hget. unfold ResponseCache.get. rewrite Hget.
  destruct (Z.gtb_spec (now - timestamp entry) (ttl entry)) as [Hexp|Hlive];
    cbn [fst snd cache with_cache]; split; intros H; try lia.
  - split; [reflexivity|]. split; [reflexivity|]. apply map_get_delete_same.
  - reflexivity.
Qed.

(** ** What [set] stores *)

Lemma set_stores_fresh_entry_aux this operation params data now :
  JsMap.get (cache (ResponseCache.set this operation params data None now))
            (generateKey operation params)
  = Some (mkEntry data now (default_ttl (options this)) 1 now).
Proof.
  unfold ResponseCache.set. cbn [cache with_cache]. apply map_get_set_same.
Qed.

(** After [set], the key is bound to an entry with [timestamp = now],
    [accessCount = 1], [lastAccessed = now] and with [ttl] equal to the
    override when one is given and is truthy (not zero), to the default
    TTL of the cache otherwise; for a fresh key and for an overwrite
    alike. *)
Lemma set_stores_fresh_entry (this : ResponseCache.t) (operation : string)
  (params : JsObject) (data : JsValue) (customTtl : option Z) (now : Z) :
  JsMap.get (cache (ResponseCache.set this operation params data customTtl now))
            (generateKey operation params)
  = Some (mkEntry data now
            (match customTtl with
             | Some c => if c =? 0 then default_ttl (options this) else c
             | None => default_ttl (options this)
             end) 1 now).
Proof.
  unfold ResponseCache.set. cbn [cache with_cache]. rewrite map_get_set_same.
  destruct customTtl as [c|]; [|reflexivity].
  unfold truthy_number. now destruct (c =? 0).
Qed.

(** C8, evaluated where it fails. The test cache has the default TTL
    1000 (the constructor would have kept a default of 0 had it been
    given one). [set] is called with the override [0] at time 5: the
    entry is stored with [timestamp = 5], [accessCount = 1],
    [lastAccessed = 5], but with the TTL 1000 instead of the override. *)
Theorem set_zero_override_uses_default :
  JsMap.get (cache (ResponseCache.set Fixture.test_cache "op" Fixture.p1
                                      Fixture.d1 (Some 0) 5))
            (generateKey "op" Fixture.p1)
  = Some (mkEntry Fixture.d1 5 1000 1 5)
  /\ ttl (mkEntry Fixture.d1 5 1000 1 5) <> 0
  /\ default_ttl (options (init (mkOptions (Some 0) None None None))) = 0.
Proof.
  split; [vm_compute; reflexivity|]. split; [discriminate | reflexivity].
Qed.

(** ** Construction *)

(** C3 (amended). The constructor validates nothing: for every options
    object it completes normally, with each omitted option replaced by
    its default and each given option stored as given, positive or not.
    A [get] or a [delete] of a key that is absent answers [undefined],
    respectively [false], and leaves the cache as it was. *)
Theorem constructor_accepts_every_options (o : CacheOptions) :
  (exists this,
      constructor_ o = Normal this /\
      cache this = [] /\
      default_ttl (options this) = default (opt_ttl o) 300000 /\
      maxSize (options this) = default (opt_maxSize o) 100) /\
  (forall this operation params now,
      JsMap.get (cache this) (generateKey operation params) = None ->
      ResponseCache.get this operation params now = (JUndefined, this) /\
      ResponseCache.delete this operation params = (false, this)).
Proof.
  split.
  - exists (init o). unfold constructor_, init.
    destruct (default (opt_autoCleanup o) true); repeat split.
  - intros this operation params now H.
    unfold ResponseCache.get, ResponseCache.delete, JsMap.has. rewrite H.
    split; [reflexivity|]. rewrite map_delete_absent by assumption.
    now destruct this.
Qed.

(** C3, as stated, fails: constructing a cache with [maxSize: 0] and
    [ttl: -5] completes normally and yields a cache with these
    options. *)
Lemma constructor_accepts_invalid_options :
  constructor_ Fixture.invalid_options
  = Normal (mkCache [] (mkResolved (-5) 0 false 60000) None)
  /\ forall error, constructor_ Fixture.invalid_options <> Throw error.
Proof. split; [reflexivity | discriminate]. Qed.

(** ** The key codec *)

Section SortFacts.

Lemma string_compare_le_trans s1 : forall s2 s3,
  String.compare s1 s2 <> Gt -> String.compare s2 s3 <> Gt ->
  String.compare s1 s3 <> Gt.
Proof.
  induction s1 as [|a s1 IH]; intros [|b s2] [|c s3]; simpl; try congruence.
  unfold Ascii.compare.
  destruct (N.compare_spec (N_of_ascii a) (N_of_ascii b)) as [Hab|Hab|Hab];
    destruct (N.compare_spec (N_of_ascii b) (N_of_ascii c)) as [Hbc|Hbc|Hbc];
    destruct (N.compare_spec (N_of_ascii a) (N_of_ascii c)) as [Hac|Hac|Hac];
    try congruence; try lia.
  apply IH.
Qed.

Lemma string_leb_trans s1 s2 s3 :
  String.leb s1 s2 = true -> String.leb s2 s3 = true -> String.leb s1 s3 = true.
Proof.
  unfold String.leb. intros H12 H23.
  pose proof (string_compare_le_trans s1 s2 s3) as H.
  destruct (String.compare s1 s2), (String.compare s2 s3), (String.compare s1 s3);
    try reflexivity; try discriminate; exfalso; apply H; congruence.
Qed.

Lemma string_leb_false s1 s2 : String.leb s1 s2 = false -> String.leb s2 s1 = true.
Proof.
  intros H. destruct (String.leb_total s1 s2) as [H'|H']; congruence.
Qed.

(** Insertions into the sorted prefix commute. *)
Lemma sort_insert_comm x y l :
  sort_insert x (sort_insert y l) = sort_insert y (sort_insert x l).
Proof.
  induction l as [|a l IH]; simpl.
  - destruct (String.leb x y) eqn:Hxy, (String.leb y x) eqn:Hyx; auto.
    + now rewrite (String.leb_antisym _ _ Hxy Hyx).
    + apply string_leb_false in Hxy. congruence.
  - destruct (String.leb y a) eqn:Hya, (String.leb x a) eqn:Hxa; simpl;
      rewrite ?Hya, ?Hxa.
    + destruct (String.leb x y) eqn:Hxy, (String.leb y x) eqn:Hyx; auto.
      * now rewrite (String.leb_antisym _ _ Hxy Hyx).
      * apply string_leb_false in Hxy. congruence.
    + destruct (String.leb x y) eqn:Hxy; auto.
      pose proof (string_leb_trans _ _ _ Hxy Hya). congruence.
    + destruct (String.leb y x) eqn:Hyx; auto.
      pose proof (string_leb_trans _ _ _ Hyx Hxa). congruence.
    + now rewrite IH.
Qed.

Lemma sort_permutation l1 l2 : Permutation l1 l2 -> Js.sort l1 = Js.sort l2.
Proof.
  induction 1; simpl; try congruence.
  apply sort_insert_comm.
Qed.

End SortFacts.

Section ObjectFacts.

Lemma prop_get_in (o : JsObject) k v :
  NoDup (Object_keys o) -> In (k, v) o -> prop_get o k = v.
Proof.
  unfold Object_keys. induction o as [|[k' v'] o IH]; simpl; [tauto|].
  intros Hnd [Heq|Hin].
  - injection Heq as -> ->. now rewrite String.eqb_refl.
  - inversion Hnd as [|? ? Hnotin Hnd']; subst.
    destruct (String.eqb_spec k' k) as [->|Hne]; auto.
    exfalso. apply Hnotin. change k with (fst (k, v)). now apply in_map.
Qed.

Lemma prop_get_notin (o : JsObject) k :
  ~ In k (Object_keys o) -> prop_get o k = JUndefined.
Proof.
  unfold Object_keys. induction o as [|[k' v'] o IH]; simpl; auto.
  intros H. destruct (String.eqb_spec k' k); [tauto | apply IH; tauto].
Qed.

Lemma in_keys_inv (o : JsObject) k :
  In k (Object_keys o) -> exists v, In (k, v) o.
Proof.
  unfold Object_keys. intros H. apply in_map_iff in H.
  destruct H as ([k' v] & <- & Hin). now exists v.
Qed.

(** Reading a property does not depend on the order in which the
    properties of the object were created. *)
Lemma prop_get_permutation (o1 o2 : JsObject) k :
  NoDup (Object_keys o1) -> Permutation o1 o2 -> prop_get o1 k = prop_get o2 k.
Proof.
  intros Hnd Hperm.
  assert (Hk : Permutation (Object_keys o1) (Object_keys o2))
    by now apply Permutation_map.
  assert (Hnd2 : NoDup (Object_keys o2)) by eauto using Permutation_NoDup.
  destruct (in_dec string_dec k (Object_keys o1)) as [Hin|Hout].
  - destruct (in_keys_inv _ _ Hin) as [v Hv].
    rewrite (prop_get_in o1 k v), (prop_get_in o2 k v); auto.
    eapply Permutation_in; eauto.
  - rewrite !prop_get_notin; auto.
    intros Hin. apply Hout. eapply Permutation_in; [symmetry|]; eauto.
Qed.

Lemma fold_left_pointwise {A B : Type} (f g : A -> B -> A) l a :
  (forall x y, f x y = g x y) -> fold_left f l a = fold_left g l a.
Proof.
  intros H. revert a. induction l as [|b l IH]; intros a; simpl; auto.
  now rewrite H, IH.
Qed.

End ObjectFacts.

(** C9. Two parameter bags that hold the same top-level key/value
    pairs, listed in different orders, each value being the same down to
    the order of the keys of any nested object, yield the same cache key
    for every operation name. ([generateKey] is a function of its two
    arguments only.) *)
Theorem generateKey_order_independent (operation : string)
  (params1 params2 : JsObject) :
  NoDup (Object_keys params1) ->
  Permutation params1 params2 ->
  generateKey operation params1 = generateKey operation params2.
Proof.
  intros Hnd Hperm. unfold generateKey.
  rewrite (sort_permutation (Object_keys params1) (Object_keys params2))
    by now apply Permutation_map.
  rewrite (fold_left_pointwise
             (fun acc key => prop_set acc key (prop_get params1 key))
             (fun acc key => prop_set acc key (prop_get params2 key))).
  - reflexivity.
  - intros acc key. now rewrite (prop_get_permutation params1 params2).
Qed.

(** C9, as stated, fails: only the top-level keys are sorted, a nested
    object is serialized with its keys in insertion order. The bags
    [{a: {x: 1, y: 2}, b: 1}] and [{b: 1, a: {y: 2, x: 1}}] are equal as
    sets of key/value pairs and get different cache keys. *)
Lemma generateKey_nested_order_matters :
  same_pairs (JObj Fixture.nested_xy) (JObj Fixture.nested_yx) = true /\
  generateKey "op" Fixture.nested_xy = "op_aca348ccf2dc7592" /\
  generateKey "op" Fixture.nested_yx = "op_536e8208ff3ff9bd" /\
  generateKey "op" Fixture.nested_xy <> generateKey "op" Fixture.nested_yx.
Proof.
  assert (H1 : generateKey "op" Fixture.nested_xy = "op_aca348ccf2dc7592")
    by (vm_compute; reflexivity).
  assert (H2 : generateKey "op" Fixture.nested_yx = "op_536e8208ff3ff9bd")
    by (vm_compute; reflexivity).
  split; [reflexivity|]. split; [exact H1|]. split; [exact H2|].
  rewrite H1, H2. discriminate.
Qed.

(** ** invalidateCache *)

Lemma prefix_split_first sep s : String.prefix (split_first sep s) s = true.
Proof.
  induction s as [|c s IH]; simpl; auto.
  destruct (Ascii.eqb c sep); simpl; auto.
  destruct (ascii_dec c c); [assumption | congruence].
Qed.

Lemma includes_prefix s pat : String.prefix pat s = true -> includes s pat = true.
Proof. intros H. destruct s; cbn [includes]; now rewrite H. Qed.

Lemma includes_split_first sep s : includes s (split_first sep s) = true.
Proof. apply includes_prefix, prefix_split_first. Qed.

Lemma invalidate_count pattern now (m : JsMap.t CacheEntry) : forall count,
  fold_left (fun invalidatedCount entry =>
               if includes (key entry) pattern
               then if String.eqb (split_first "_" (key entry)) pattern
                    then invalidatedCount + 1
                    else invalidatedCount
               else invalidatedCount)
            (map (fun ke => mkStatsEntry (fst ke) (now - timestamp (snd ke))
                                         (accessCount (snd ke))) m)
            count
  = count + Z.of_nat (List.length
                        (filter (fun k => String.eqb (split_first "_" k) pattern)
                                (JsMap.keys m))).
Proof.
  induction m as [|[k e] m IH]; intros count; cbn [map fold_left JsMap.keys filter fst key].
  - simpl. lia.
  - fold (JsMap.keys m). rewrite IH.
    destruct (String.eqb_spec (split_first "_" k) pattern) as [<-|Hne].
    + rewrite includes_split_first. cbn [List.length]. lia.
    + destruct (includes k pattern); lia.
Qed.

(** C10. [invalidateCache] returns the cache it was given, unchanged,
    together with the number of keys whose part before the first
    underscore is the pattern. *)
Theorem invalidateCache_only_counts (this : ResponseCache.t) (pattern : string)
  (now : Z) :
  snd (invalidateCache this pattern now) = this /\
  fst (invalidateCache this pattern now)
  = Z.of_nat (List.length
                (filter (fun k => String.eqb (split_first "_" k) pattern)
                        (JsMap.keys (cache this)))).
Proof.
  unfold invalidateCache, ResponseCache.getStats. cbn [fst snd entries].
  split; [reflexivity|]. now rewrite invalidate_count.
Qed.

(** The operation names of [CacheKeys] contain underscores themselves:
    with the key of a [list_checks] request in the registry's [checks]
    cache, the pattern ['list_checks'] counts nothing and the pattern
    ['list'] counts the key. *)
Example invalidateCache_list_checks :
  let c := ResponseCache.set CacheInstances.checks CacheKeys.LIST_CHECKS []
                             (JObj []) None 0 in
  fst (invalidateCache c CacheKeys.LIST_CHECKS 1) = 0 /\
  fst (invalidateCache c "list" 1) = 1.
Proof. vm_compute. split; reflexivity. Qed.

(** ** withCache *)

(** A hit on a truthy value is answered from the cache: the producer is
    not invoked. *)
Lemma withCache_hit (this : ResponseCache.t) operation handler params customTtl
  now_get now_set calls entry :
  JsMap.get (cache this) (generateKey operation params) = Some entry ->
  now_get - timestamp entry <= ttl entry ->
  truthy (data entry) = true ->
  withCache this operation handler params customTtl now_get now_set calls
  = (Resolved (data entry),
     snd (ResponseCache.get this operation params now_get), calls).
Proof.
  intros Hget Hlive Htruthy. unfold withCache, ResponseCache.get.
  rewrite Hget. destruct (Z.gtb_spec (now_get - timestamp entry) (ttl entry)); [lia|].
  cbn [snd]. now rewrite Htruthy.
Qed.

(** A hit on a falsy value is taken for a miss: the producer is
    invoked. *)
Lemma withCache_falsy_hit (this : ResponseCache.t) operation handler params
  customTtl now_get now_set calls entry :
  JsMap.get (cache this) (generateKey operation params) = Some entry ->
  now_get - timestamp entry <= ttl entry ->
  truthy (data entry) = false ->
  snd (withCache this operation handler params customTtl now_get now_set calls)
  = S calls.
Proof.
  intros Hget Hlive Hfalsy. unfold withCache, ResponseCache.get.
  rewrite Hget. destruct (Z.gtb_spec (now_get - timestamp entry) (ttl entry)); [lia|].
  rewrite Hfalsy. now destruct (handler calls).
Qed.

(** X19. Two calls in a row with a producer that resolves to a truthy value,
    the second within the TTL of what the first stored: one invocation,
    the same value twice. *)
Lemma withCache_twice (this : ResponseCache.t) operation v params
  now1 now1' now2 now2' calls :
  (forall entry,
      JsMap.get (cache this) (generateKey operation params) = Some entry ->
      now1 - timestamp entry > ttl entry) ->
  truthy v = true ->
  now2 - now1' <= default_ttl (options this) ->
  let r1 := withCache this operation (Fixture.constant_handler v) params None
                      now1 now1' calls in
  let r2 := withCache (snd (fst r1)) operation (Fixture.constant_handler v)
                      params None now2 now2' (snd r1) in
  fst (fst r1) = Resolved v /\ fst (fst r2) = Resolved v /\ snd r2 = S calls.
Proof.
  intros Hmiss Htruthy Hlive r1 r2.
  assert (E1 : r1 = (Resolved v,
                     ResponseCache.set
                       (snd (ResponseCache.get this operation params now1))
                       operation params v None now1', S calls)).
  { subst r1. unfold withCache, ResponseCache.get.
    destruct (JsMap.get (cache this) (generateKey operation params)) as [e|] eqn:Hget.
    - specialize (Hmiss e eq_refl).
      destruct (Z.gtb_spec (now1 - timestamp e) (ttl e)); [|lia]. reflexivity.
    - reflexivity. }
  subst r2. rewrite E1. cbn [fst snd]. split; [reflexivity|].
  pose proof (set_stores_fresh_entry_aux
                (snd (ResponseCache.get this operation params now1))
                operation params v now1') as Hentry.
  rewrite (withCache_hit _ operation _ params None now2 now2' (S calls) _ Hentry).
  - cbn [fst snd data]. split; reflexivity.
  - cbn [timestamp ttl]. rewrite get_options. lia.
  - exact Htruthy.
Qed.

(** C1, evaluated where it fails. The producer resolves to [0]. After
    the first call the key is bound to a live entry holding [0]; the
    second call, ten milliseconds later, nevertheless invokes the
    producer again: two invocations instead of one. *)
Theorem withCache_recomputes_cached_zero :
  fst (fst Fixture.zero_first) = Resolved (JNum 0) /\
  JsMap.get (cache (snd (fst Fixture.zero_first))) (generateKey "op" Fixture.p1)
  = Some (mkEntry (JNum 0) 10 1000 1 10) /\
  20 - 10 <= 1000 /\
  fst (fst Fixture.zero_second) = Resolved (JNum 0) /\
  snd Fixture.zero_second = 2%nat.
Proof. vm_compute. repeat split; discriminate. Qed.

(** C2, evaluated where it fails. The test cache is full (three
    entries) and request 3 is among them; overwriting request 3 evicts
    request 1 and leaves two entries. *)
Theorem set_overwrite_at_capacity_evicts :
  JsMap.size (cache Fixture.full_cache) = 3 /\
  JsMap.has (cache Fixture.full_cache) (generateKey "op" Fixture.p3) = true /\
  JsMap.has (cache Fixture.full_cache) (generateKey "op" Fixture.p1) = true /\
  JsMap.has (cache Fixture.overwritten_cache) (generateKey "op" Fixture.p1) = false /\
  JsMap.size (cache Fixture.overwritten_cache) = 2.
Proof. vm_compute. repeat split. Qed.

(** X20. Below capacity an overwrite touches nothing but its own entry: the
    size and every other key's entry are unchanged. *)
Lemma set_overwrite_below_capacity this operation params data customTtl now e :
  JsMap.get (cache this) (generateKey operation params) = Some e ->
  JsMap.size (cache this) < maxSize (options this) ->
  JsMap.size (cache (ResponseCache.set this operation params data customTtl now))
  = JsMap.size (cache this) /\
  forall k, k <> generateKey operation params ->
    JsMap.get (cache (ResponseCache.set this operation params data customTtl now)) k
    = JsMap.get (cache this) k.
Proof.
  intros Hget Hroom. unfold ResponseCache.set.
  destruct (Z.geb_spec (JsMap.size (cache this)) (maxSize (options this))); [lia|].
  cbn [cache with_cache]. split.
  - unfold JsMap.size. now erewrite map_set_length_present by eauto.
  - intros k Hk. apply map_get_set_other. congruence.
Qed.

(** C6 (amended). Let the producer reject, and let the key be absent or
    bound to an expired entry. Then [withCache] rejects with the
    producer's reason, after one invocation; nothing is stored under
    the key; every other key is bound as before; the cache is exactly as
    it was when the key was absent, and has lost only the expired entry
    otherwise; and the next [withCache] for the same key invokes its
    producer. *)
Theorem withCache_failure_not_cached (this : ResponseCache.t)
  (operation : string) (handler : nat -> Settled) (params : JsObject)
  (customTtl : option Z) (now_get now_set : Z) (calls : nat) (reason : JsValue) :
  handler calls = Rejected reason ->
  (forall entry,
      JsMap.get (cache this) (generateKey operation params) = Some entry ->
      now_get - timestamp entry > ttl entry) ->
  exists this',
    withCache this operation handler params customTtl now_get now_set calls
    = (Rejected reason, this', S calls) /\
    this' = with_cache this (JsMap.delete (cache this) (generateKey operation params)) /\
    (JsMap.get (cache this) (generateKey operation params) = None -> this' = this) /\
    JsMap.get (cache this') (generateKey operation params) = None /\
    (forall k, k <> generateKey operation params ->
               JsMap.get (cache this') k = JsMap.get (cache this) k) /\
    (forall handler2 customTtl2 now_get2 now_set2,
        snd (withCache this' operation handler2 params customTtl2
                       now_get2 now_set2 (S calls)) = S (S calls)).
Proof.
  intros Hrej Hmiss.
  exists (with_cache this (JsMap.delete (cache this) (generateKey operation params))).
  assert (Hsame : JsMap.get (cache this) (generateKey operation params) = None ->
                  with_cache this (JsMap.delete (cache this) (generateKey operation params))
                  = this).
  { intros H. rewrite map_delete_absent by assumption. now destruct this. }
  split.
  - unfold withCache, ResponseCache.get.
    destruct (JsMap.get (cache this) (generateKey operation params)) as [e|] eqn:Hget.
    + specialize (Hmiss e eq_refl).
      destruct (Z.gtb_spec (now_get - timestamp e) (ttl e)); [|lia].
      cbn [truthy]. now rewrite Hrej.
    + cbn [truthy]. rewrite Hrej, Hsame; auto.
  - split; [reflexivity|]. split; [exact Hsame|].
    cbn [cache with_cache]. split; [apply map_get_delete_same|].
    split.
    + intros k Hk. apply map_get_delete_other. congruence.
    + intros handler2 customTtl2 now_get2 now_set2.
      unfold withCache, ResponseCache.get. cbn [cache with_cache].
      rewrite map_get_delete_same. cbn [truthy].
      now destruct (handler2 (S calls)).
Qed.

(** C6, as stated, fails: the key is bound to an entry that expired;
    the producer rejects; the call rejects, and the cache afterwards is
    not the cache before (the expired entry is gone). *)
Lemma withCache_failure_drops_expired_entry :
  withCache Fixture.cache_with_1 "op" Fixture.failing_handler Fixture.p1 None
            2000 2000 0
  = (Rejected (JStr "Test error"), Fixture.test_cache, 1%nat)
  /\ Fixture.test_cache <> Fixture.cache_with_1.
Proof.
  split; [vm_compute; reflexivity|].
  intros H. apply (f_equal (fun c => List.length (cache c))) in H.
  vm_compute in H. discriminate.
Qed.

(** ** Eviction *)

Lemma set_at_capacity this operation params data customTtl now :
  well_formed this -> cache this <> [] ->
  JsMap.size (cache this) >= maxSize (options this) ->
  exists m1 k e m2,
    cache this = m1 ++ (k, e) :: m2 /\
    (forall ke, In ke m1 -> lastAccessed e < lastAccessed (snd ke)) /\
    (forall ke, In ke m2 -> lastAccessed e <= lastAccessed (snd ke)) /\
    cache (ResponseCache.set this operation params data customTtl now)
    = JsMap.set (m1 ++ m2) (generateKey operation params)
                (fresh_entry this data customTtl now).
Proof.
  intros Hwf Hne Hfull.
  destruct (evict_spec this Hwf Hne) as (m1 & k & e & m2 & Hm & H1 & H2 & Hev).
  exists m1, k, e, m2.
  split; [exact Hm|]. split; [exact H1|]. split; [exact H2|].
  unfold ResponseCache.set.
  destruct (Z.geb_spec (JsMap.size (cache this)) (maxSize (options this))); [|lia].
  rewrite Hev. cbn [cache with_cache]. f_equal.
  unfold fresh_entry, truthy_number. destruct customTtl as [c|]; auto.
  now destruct (c =? 0).
Qed.

Lemma set_with_room this operation params data customTtl now :
  JsMap.size (cache this) < maxSize (options this) ->
  ResponseCache.set this operation params data customTtl now
  = with_cache this (JsMap.set (cache this) (generateKey operation params)
                               (fresh_entry this data customTtl now)).
Proof.
  intros Hroom. unfold ResponseCache.set.
  destruct (Z.geb_spec (JsMap.size (cache this)) (maxSize (options this))); [lia|].
  f_equal. f_equal. unfold fresh_entry, truthy_number.
  destruct customTtl as [c|]; auto. now destruct (c =? 0).
Qed.

Lemma NoDup_4 (a b c d : string) :
  NoDup [a; b; c; d] ->
  a <> b /\ a <> c /\ a <> d /\ b <> c /\ b <> d /\ c <> d.
Proof.
  intros H. inversion H as [|? ? Ha H']; subst.
  inversion H' as [|? ? Hb H'']; subst.
  inversion H'' as [|? ? Hc _]; subst.
  simpl in *. repeat split; intros E; subst; tauto.
Qed.

(** The LRU unit test, with arbitrary requests, payloads and clock
    readings: a cache of capacity 3 receives requests 1, 2, 3 (at [t1],
    [t2], [t3]), request 1 is read at [tr], request 4 is stored at
    [t4]. *)
Section Scenario.
Variables (o1 o2 o3 o4 : string) (q1 q2 q3 q4 : JsObject) (v1 v2 v3 v4 : JsValue).
Variables (T t1 t2 t3 tr t4 : Z).

Let k1 := generateKey o1 q1.
Let k2 := generateKey o2 q2.
Let k3 := generateKey o3 q3.
Let k4 := generateKey o4 q4.
Let opts := mkResolved T 3 false 60000.
Let e1 := mkEntry v1 t1 T 1 t1.
Let e2 := mkEntry v2 t2 T 1 t2.
Let e3 := mkEntry v3 t3 T 1 t3.
Let e4 := mkEntry v4 t4 T 1 t4.
Let e1' := mkEntry v1 t1 T 2 tr.

Let c0 := init (mkOptions (Some T) (Some 3) (Some false) None).
Let c3 :=
  ResponseCache.set
    (ResponseCache.set (ResponseCache.set c0 o1 q1 v1 None t1) o2 q2 v2 None t2)
    o3 q3 v3 None t3.

Hypothesis distinct : NoDup [k1; k2; k3; k4].

Ltac key_tests :=
  destruct (NoDup_4 _ _ _ _ distinct) as (N12 & N13 & N14 & N23 & N24 & N34);
  pose proof (proj2 (String.eqb_neq _ _) N12) as E12;
  pose proof (proj2 (String.eqb_neq _ _) N13) as E13;
  pose proof (proj2 (String.eqb_neq _ _) N14) as E14;
  pose proof (proj2 (String.eqb_neq _ _) N23) as E23;
  pose proof (proj2 (String.eqb_neq _ _) N24) as E24;
  pose proof (proj2 (String.eqb_neq _ _) N34) as E34;
  pose proof (proj2 (String.eqb_neq _ _) (not_eq_sym N12)) as E21;
  pose proof (proj2 (String.eqb_neq _ _) (not_eq_sym N13)) as E31;
  pose proof (proj2 (String.eqb_neq _ _) (not_eq_sym N14)) as E41;
  pose proof (proj2 (String.eqb_neq _ _) (not_eq_sym N23)) as E32;
  pose proof (proj2 (String.eqb_neq _ _) (not_eq_sym N24)) as E42;
  pose proof (proj2 (String.eqb_neq _ _) (not_eq_sym N34)) as E43.

Ltac by_key_tests :=
  cbn [JsMap.get JsMap.set JsMap.delete filter fst snd negb];
  repeat (rewrite String.eqb_refl ||
          match goal with
          | H : String.eqb _ _ = false |- _ => rewrite H
          end);
  cbn [JsMap.get JsMap.set JsMap.delete filter fst snd negb].

Lemma scenario_filled : c3 = mkCache [(k1, e1); (k2, e2); (k3, e3)] opts None.
Proof.
  key_tests. subst c3 c0.
  change (init (mkOptions (Some T) (Some 3) (Some false) None))
    with (mkCache [] opts None).
  assert (S1 : ResponseCache.set (mkCache [] opts None) o1 q1 v1 None t1
               = mkCache [(k1, e1)] opts None).
  { rewrite set_with_room by (cbn; lia). reflexivity. }
  rewrite S1.
  assert (S2 : ResponseCache.set (mkCache [(k1, e1)] opts None) o2 q2 v2 None t2
               = mkCache [(k1, e1); (k2, e2)] opts None).
  { rewrite set_with_room by (cbn; lia).
    unfold with_cache, fresh_entry. cbn [cache options cleanupTimer default_ttl opts].
    fold k2. by_key_tests. reflexivity. }
  rewrite S2.
  rewrite set_with_room by (cbn; lia).
  unfold with_cache, fresh_entry. cbn [cache options cleanupTimer default_ttl opts].
  fold k3. repeat by_key_tests. reflexivity.
Qed.

Lemma scenario_read :
  tr - t1 <= T ->
  ResponseCache.get c3 o1 q1 tr
  = (v1, mkCache [(k1, e1'); (k2, e2); (k3, e3)] opts None).
Proof.
  intros Hlive. key_tests. rewrite scenario_filled.
  unfold ResponseCache.get. fold k1. cbn [cache]. by_key_tests.
  cbn [timestamp ttl e1].
  destruct (Z.gtb_spec (tr - t1) T) as [H|H]; [lia|].
  unfold with_cache. cbn [cache options cleanupTimer data accessCount].
  by_key_tests. reflexivity.
Qed.

Lemma scenario_insert :
  tr - t1 <= T ->
  t2 < tr \/ t3 < tr ->
  let c5 := ResponseCache.set (snd (ResponseCache.get c3 o1 q1 tr)) o4 q4 v4 None t4 in
  cache c5 = [(k1, e1'); (k3, e3); (k4, e4)] \/
  cache c5 = [(k1, e1'); (k2, e2); (k4, e4)].
Proof.
  intros Hlive Hlater c5. subst c5. key_tests. rewrite scenario_read by assumption.
  cbn [snd]. unfold ResponseCache.set. fold k4.
  change (JsMap.size (cache (mkCache [(k1, e1'); (k2, e2); (k3, e3)] opts None))
          >=? maxSize (options (mkCache [(k1, e1'); (k2, e2); (k3, e3)] opts None)))
    with true.
  cbn iota. unfold evictLeastRecentlyUsed.
  change (JsMap.size (cache (mkCache [(k1, e1'); (k2, e2); (k3, e3)] opts None)) =? 0)
    with false.
  cbn [cache fold_left].
  rewrite lru_scan_none, lru_scan_some. cbn [lastAccessed e1' e2 e3].
  assert (Hk2 : truthy_string k2 = true) by apply generateKey_truthy.
  assert (Hk3 : truthy_string k3 = true) by apply generateKey_truthy.
  destruct (Z.ltb_spec t2 tr) as [H2|H2]; rewrite lru_scan_some;
    cbn [lastAccessed e1' e2 e3].
  - destruct (Z.ltb_spec t3 t2) as [H3|H3]; cbn [fst].
    + right. rewrite Hk3. unfold with_cache. cbn [cache default_ttl options opts].
      repeat by_key_tests. reflexivity.
    + left. rewrite Hk2. unfold with_cache. cbn [cache default_ttl options opts].
      repeat by_key_tests. reflexivity.
  - destruct (Z.ltb_spec t3 tr) as [H3|H3]; [|lia]. cbn [fst].
    right. rewrite Hk3. unfold with_cache. cbn [cache default_ttl options opts].
    repeat by_key_tests. reflexivity.
Qed.

End Scenario.

Lemma has_of_get (m : JsMap.t CacheEntry) k e :
  JsMap.get m k = Some e -> JsMap.has m k = true.
Proof. unfold JsMap.has. now intros ->. Qed.

Lemma get_live (this : ResponseCache.t) operation params now e :
  JsMap.get (cache this) (generateKey operation params) = Some e ->
  now - timestamp e <= ttl e ->
  fst (ResponseCache.get this operation params now) = data e.
Proof.
  intros Hget Hlive. unfold ResponseCache.get. rewrite Hget.
  now destruct (Z.gtb_spec (now - timestamp e) (ttl e)); [lia|].
Qed.

(** C4 (amended). When [set] finds a well-formed, non-empty cache at or
    above its capacity, exactly one entry is removed before the new
    entry is admitted: the first entry in iteration order whose
    [lastAccessed] is the smallest among all the entries of the map,
    expired or not. In particular, in a cache of capacity 3, after
    storing requests 1, 2, 3, reading request 1 while it is live, at a
    clock reading strictly later than the one at which request 2 or
    request 3 was stored, and storing request 4: entries 1 and 4 are
    present (and are returned by a [get] within their TTL) and exactly
    one of entries 2 and 3 is gone. *)
Theorem set_evicts_first_least_recently_accessed :
  (forall this operation params data customTtl now,
      well_formed this -> cache this <> [] ->
      JsMap.size (cache this) >= maxSize (options this) ->
      exists m1 k e m2,
        cache this = m1 ++ (k, e) :: m2 /\
        (forall ke, In ke m1 -> lastAccessed e < lastAccessed (snd ke)) /\
        (forall ke, In ke m2 -> lastAccessed e <= lastAccessed (snd ke)) /\
        cache (ResponseCache.set this operation params data customTtl now)
        = JsMap.set (m1 ++ m2) (generateKey operation params)
                    (fresh_entry this data customTtl now))
  /\
  (forall o1 o2 o3 o4 q1 q2 q3 q4 v1 v2 v3 v4 T t1 t2 t3 tr t4,
      NoDup [generateKey o1 q1; generateKey o2 q2;
             generateKey o3 q3; generateKey o4 q4] ->
      tr - t1 <= T ->
      t2 < tr \/ t3 < tr ->
      let c3 :=
        ResponseCache.set
          (ResponseCache.set
             (ResponseCache.set
                (init (mkOptions (Some T) (Some 3) (Some false) None))
                o1 q1 v1 None t1)
             o2 q2 v2 None t2)
          o3 q3 v3 None t3 in
      let c5 :=
        ResponseCache.set (snd (ResponseCache.get c3 o1 q1 tr)) o4 q4 v4 None t4 in
      JsMap.get (cache c5) (generateKey o1 q1) = Some (mkEntry v1 t1 T 2 tr) /\
      JsMap.get (cache c5) (generateKey o4 q4) = Some (mkEntry v4 t4 T 1 t4) /\
      (JsMap.has (cache c5) (generateKey o2 q2) = false /\
       JsMap.has (cache c5) (generateKey o3 q3) = true
       \/
       JsMap.has (cache c5) (generateKey o2 q2) = true /\
       JsMap.has (cache c5) (generateKey o3 q3) = false) /\
      (forall tg, tg - t1 <= T -> tg - t4 <= T ->
                  fst (ResponseCache.get c5 o1 q1 tg) = v1 /\
                  fst (ResponseCache.get c5 o4 q4 tg) = v4)).
Proof.
  split; [intros; now apply set_at_capacity|].
  intros o1 o2 o3 o4 q1 q2 q3 q4 v1 v2 v3 v4 T t1 t2 t3 tr t4 Hnd Hlive Hlater c3 c5.
  destruct (NoDup_4 _ _ _ _ Hnd) as (N12 & N13 & N14 & N23 & N24 & N34).
  assert (G1 : JsMap.get (cache c5) (generateKey o1 q1) = Some (mkEntry v1 t1 T 2 tr) /\
               JsMap.get (cache c5) (generateKey o4 q4) = Some (mkEntry v4 t4 T 1 t4) /\
               (JsMap.has (cache c5) (generateKey o2 q2) = false /\
                JsMap.has (cache c5) (generateKey o3 q3) = true
                \/
                JsMap.has (cache c5) (generateKey o2 q2) = true /\
                JsMap.has (cache c5) (generateKey o3 q3) = false)).
  { destruct (scenario_insert o1 o2 o3 o4 q1 q2 q3 q4 v1 v2 v3 v4 T t1 t2 t3 tr t4
                              Hnd Hlive Hlater) as [E|E];
      fold c3 in E; fold c5 in E; rewrite E; unfold JsMap.has;
      cbn [JsMap.get];
      repeat (rewrite String.eqb_refl ||
              match goal with
              | H : ?a <> ?b |- context [String.eqb ?a ?b] =>
                  rewrite (proj2 (String.eqb_neq a b) H)
              | H : ?a <> ?b |- context [String.eqb ?b ?a] =>
                  rewrite (proj2 (String.eqb_neq b a) (not_eq_sym H))
              end).
    - split; [reflexivity|]. split; [reflexivity|]. left. split; reflexivity.
    - split; [reflexivity|]. split; [reflexivity|]. right. split; reflexivity. }
  destruct G1 as (H1 & H4 & H23).
  split; [exact H1|]. split; [exact H4|]. split; [exact H23|].
  intros tg Hg1 Hg4. split.
  - now rewrite (get_live c5 o1 q1 tg _ H1).
  - now rewrite (get_live c5 o4 q4 tg _ H4).
Qed.

(** C4, as stated, fails twice. (1) At time 100 the cache of capacity 2
    holds entry 1, expired, and entry 2, live; storing request 3 evicts
    entry 1, which is not among the live entries, and keeps entry 2, the
    live entry accessed longest ago. (2) When the calls of the LRU test
    all read the same clock value, storing request 4 evicts request 1,
    which was just read, and keeps requests 2 and 3. *)
Lemma eviction_ignores_liveness_and_ties :
  (JsMap.get (cache Fixture.dead_and_live) (generateKey "op" Fixture.p1)
   = Some (mkEntry Fixture.d1 0 10 1 0) /\
   100 - 0 > 10 /\
   JsMap.get (cache Fixture.dead_and_live) (generateKey "op" Fixture.p2)
   = Some (mkEntry Fixture.d2 50 1000 1 50) /\
   100 - 50 <= 1000 /\
   JsMap.has (cache Fixture.after_dead_and_live) (generateKey "op" Fixture.p1) = false /\
   JsMap.has (cache Fixture.after_dead_and_live) (generateKey "op" Fixture.p2) = true)
  /\
  (JsMap.has (cache Fixture.same_instant) (generateKey "op" Fixture.p1) = false /\
   JsMap.has (cache Fixture.same_instant) (generateKey "op" Fixture.p2) = true /\
   JsMap.has (cache Fixture.same_instant) (generateKey "op" Fixture.p3) = true /\
   JsMap.has (cache Fixture.same_instant) (generateKey "op" Fixture.p4) = true).
Proof. vm_compute. repeat split; discriminate. Qed.

(** * Further properties of the cache *)

(** ** Round trip *)

(** X1. A value stored by [set] is what a [get] of the same request
    returns, as long as the clock has not advanced by more than the TTL
    the entry was stored with. *)
Theorem set_then_get_round_trip (this : ResponseCache.t) (operation : string)
  (params : JsObject) (data : JsValue) (customTtl : option Z) (now now' : Z) :
  now' - now <= ttl (fresh_entry this data customTtl now) ->
  fst (ResponseCache.get
         (ResponseCache.set this operation params data customTtl now)
         operation params now') = data.
Proof.
  intros Hlive.
  pose proof (set_stores_fresh_entry this operation params data customTtl now) as Hset.
  now rewrite (get_live _ operation params now' _ Hset).
Qed.

(** ** What a read leaves alone *)

(** X2. Whether it hits, misses or finds an expired entry, a [get]
    changes nothing but the entry of its own key: every other key is
    bound as before, the options and the timer are untouched, and the
    cache does not grow. *)
Theorem get_touches_only_its_key (this : ResponseCache.t) (operation : string)
  (params : JsObject) (now : Z) :
  (forall k, k <> generateKey operation params ->
             JsMap.get (cache (snd (ResponseCache.get this operation params now))) k
             = JsMap.get (cache this) k) /\
  options (snd (ResponseCache.get this operation params now)) = options this /\
  cleanupTimer (snd (ResponseCache.get this operation params now)) = cleanupTimer this /\
  JsMap.size (cache (snd (ResponseCache.get this operation params now)))
  <= JsMap.size (cache this).
Proof.
  split; [|split; [apply get_options | split; [|apply get_size_le]]].
  - intros k Hk. unfold ResponseCache.get.
    destruct (JsMap.get (cache this) (generateKey operation params)) as [e|];
      [|reflexivity].
    destruct (now - timestamp e >? ttl e); cbn [snd cache with_cache].
    + apply map_get_delete_other. congruence.
    + apply map_get_set_other. congruence.
  - case_get; reflexivity.
Qed.

(** ** delete *)

(** X3. [delete] answers [true] exactly when the key was bound; in
    either case the key is unbound afterwards, a later [get] of it
    answers [undefined], every other key is bound as before, and a
    [delete] that answers [false] has left the cache as it was. *)
Theorem delete_reports_presence (this : ResponseCache.t) (operation : string)
  (params : JsObject) :
  (fst (ResponseCache.delete this operation params) = true <->
   exists e, JsMap.get (cache this) (generateKey operation params) = Some e) /\
  JsMap.get (cache (snd (ResponseCache.delete this operation params)))
            (generateKey operation params) = None /\
  (forall now,
      fst (ResponseCache.get (snd (ResponseCache.delete this operation params))
                             operation params now) = JUndefined) /\
  (forall k, k <> generateKey operation params ->
             JsMap.get (cache (snd (ResponseCache.delete this operation params))) k
             = JsMap.get (cache this) k) /\
  (fst (ResponseCache.delete this operation params) = false ->
   snd (ResponseCache.delete this operation params) = this).
Proof.
  unfold ResponseCache.delete. cbn [fst snd cache with_cache]. unfold JsMap.has.
  split; [|split; [apply map_get_delete_same | split; [|split]]].
  - destruct (JsMap.get (cache this) (generateKey operation params)) as [e|].
    + split; [intros _; now exists e | reflexivity].
    + split; [discriminate | intros [e He]; discriminate].
  - intros now. unfold ResponseCache.get. cbn [cache with_cache].
    now rewrite map_get_delete_same.
  - intros k Hk. apply map_get_delete_other. congruence.
  - destruct (JsMap.get (cache this) (generateKey operation params)) eqn:E;
      [discriminate|]. intros _.
    rewrite map_delete_absent by assumption. now destruct this.
Qed.

(** ** destroy *)

(** X4. [destroy] empties the cache and releases the timer, keeps the
    options, and is idempotent; after it a firing of the (cancelled)
    timer changes nothing and every [get] answers [undefined]. *)
Theorem destroy_idempotent (this : ResponseCache.t) :
  ResponseCache.destroy (ResponseCache.destroy this) = ResponseCache.destroy this /\
  cache (ResponseCache.destroy this) = [] /\
  cleanupTimer (ResponseCache.destroy this) = None /\
  options (ResponseCache.destroy this) = options this /\
  (forall now, ResponseCache.timer_fires (ResponseCache.destroy this) now
               = ResponseCache.destroy this) /\
  (forall operation params now,
      ResponseCache.get (ResponseCache.destroy this) operation params now
      = (JUndefined, ResponseCache.destroy this)).
Proof.
  unfold ResponseCache.destroy, ResponseCache.clear, ResponseCache.stopCleanup,
    ResponseCache.timer_fires, ResponseCache.get.
  destruct this as [m o [h|]]; cbn; repeat split; reflexivity.
Qed.

(** ** The sweep *)

Lemma collect_expired_keys now (m : JsMap.t CacheEntry) : forall acc,
  fold_left (fun acc ke =>
               if now - timestamp (snd ke) >? ttl (snd ke)
               then acc ++ [fst ke] else acc) m acc
  = acc ++ map fst (filter (expired now) m).
Proof.
  induction m as [|ke m IH]; intros acc; cbn [fold_left filter map].
  - now rewrite app_nil_r.
  - rewrite IH. unfold expired at 2.
    destruct (now - timestamp (snd ke) >? ttl (snd ke)); cbn [map].
    + now rewrite <- app_assoc.
    + reflexivity.
Qed.

Lemma filter_twice {A : Type} (f g : A -> bool) (l : list A) :
  filter f (filter g l) = filter (fun x => g x && f x) l.
Proof.
  induction l as [|x l IH]; cbn [filter]; auto.
  destruct (g x); cbn [filter andb]; [destruct (f x)|]; now rewrite IH.
Qed.

Lemma fold_delete_is_filter ks : forall (m : JsMap.t CacheEntry),
  fold_left (fun m key => JsMap.delete m key) ks m
  = filter (fun ke => negb (existsb (String.eqb (fst ke)) ks)) m.
Proof.
  induction ks as [|k ks IH]; intros m; cbn [fold_left existsb].
  - symmetry. apply forallb_filter_id. now apply forallb_forall.
  - rewrite IH. unfold JsMap.delete. rewrite filter_twice.
    apply filter_ext. intros ke. now rewrite negb_orb.
Qed.

Lemma keys_determine_entries (m : JsMap.t CacheEntry) k e e' :
  NoDup (JsMap.keys m) -> In (k, e) m -> In (k, e') m -> e = e'.
Proof.
  unfold JsMap.keys. induction m as [|[k0 e0] m IH]; cbn [map In]; [tauto|].
  intros Hnd [H1|H1] [H2|H2]; inversion Hnd as [|? ? Hnotin Hnd']; subst.
  - congruence.
  - injection H1 as -> ->. exfalso. apply Hnotin.
    change k with (fst (k, e')). now apply in_map.
  - injection H2 as -> ->. exfalso. apply Hnotin.
    change k with (fst (k, e)). now apply in_map.
  - now apply IH.
Qed.

(** X5. A sweep at time [now] removes exactly the entries that have
    expired at [now]: what remains is the sub-sequence of the entries
    whose age is at most their TTL, each unchanged and in the same
    order. *)
Theorem cleanup_removes_exactly_expired (this : ResponseCache.t) (now : Z) :
  well_formed this ->
  cache (ResponseCache.cleanup this now)
  = filter (fun ke => negb (expired now ke)) (cache this) /\
  options (ResponseCache.cleanup this now) = options this /\
  cleanupTimer (ResponseCache.cleanup this now) = cleanupTimer this.
Proof.
  intros [Hnd _]. unfold ResponseCache.cleanup. cbn [cache options cleanupTimer with_cache].
  split; [|split; reflexivity].
  rewrite collect_expired_keys, fold_delete_is_filter. cbn [app].
  apply filter_ext_in. intros [k e] Hin. f_equal. cbn [fst].
  destruct (expired now (k, e)) eqn:Hexp.
  - apply existsb_exists. exists k. split; [|apply String.eqb_refl].
    change k with (fst (k, e)). apply in_map. apply filter_In. now split.
  - destruct (existsb (String.eqb k) (map fst (filter (expired now) (cache this))))
      eqn:Hex; [|reflexivity].
    apply existsb_exists in Hex. destruct Hex as (k' & Hk' & Heq).
    apply String.eqb_eq in Heq. subst k'.
    apply in_map_iff in Hk'. destruct Hk' as ([k' e'] & Hfst & Hin').
    cbn [fst] in Hfst. subst k'. apply filter_In in Hin'. destruct Hin' as [Hin' Hexp'].
    rewrite (keys_determine_entries _ _ _ _ Hnd Hin Hin') in Hexp. congruence.
Qed.

(** ** The cap for every [maxSize] *)

Lemma evict_empty this : cache this = [] -> evictLeastRecentlyUsed this = this.
Proof. unfold evictLeastRecentlyUsed. now intros ->. Qed.


Lemma step_options this c : options (step this c) = options this.
Proof.
  destruct c; cbn [step].
  - apply get_options.
  - apply set_options.
  - reflexivity.
  - reflexivity.
  - reflexivity.
  - unfold ResponseCache.stopCleanup. now destruct (cleanupTimer this).
  - unfold ResponseCache.destroy, ResponseCache.stopCleanup.
    now destruct (cleanupTimer this).
  - unfold ResponseCache.timer_fires. now destruct (cleanupTimer this).
Qed.



(** X8. No sequence of calls changes the options of a cache; the four
    caches of the registry keep their TTL and capacity (30 minutes and
    50, 10 minutes and 100, 2 minutes and 200, 15 minutes and 25)
    whatever is run on them. *)
Theorem options_never_change (this : ResponseCache.t) (calls : list Call) :
  options (run this calls) = options this /\
  (default_ttl (options (run CacheInstances.checks calls)) = 1800000 /\
   maxSize (options (run CacheInstances.checks calls)) = 50) /\
  (default_ttl (options (run CacheInstances.recommendations calls)) = 600000 /\
   maxSize (options (run CacheInstances.recommendations calls)) = 100) /\
  (default_ttl (options (run CacheInstances.resources calls)) = 120000 /\
   maxSize (options (run CacheInstances.resources calls)) = 200) /\
  (default_ttl (options (run CacheInstances.organization calls)) = 900000 /\
   maxSize (options (run CacheInstances.organization calls)) = 25).
Proof.
  assert (H : forall this, options (run this calls) = options this).
  { induction calls as [|c calls IH]; intros this0; [reflexivity|].
    unfold run. cbn [fold_left]. fold (run (step this0 c) calls).
    now rewrite IH, step_options. }
  rewrite !H. repeat split; reflexivity.
Qed.


(** ** Access counts and statistics *)

Lemma counts_set (m : JsMap.t CacheEntry) k e :
  1 <= accessCount e ->
  Forall (fun ke => 1 <= accessCount (snd ke)) m ->
  Forall (fun ke => 1 <= accessCount (snd ke)) (JsMap.set m k e).
Proof.
  intros He. induction m as [|[k' e'] m IH]; intros H; cbn [JsMap.set].
  - now repeat constructor.
  - inversion H; subst. destruct (String.eqb k' k); constructor; auto.
Qed.

Lemma counts_filter (f : string * CacheEntry -> bool) (m : JsMap.t CacheEntry) :
  Forall (fun ke => 1 <= accessCount (snd ke)) m ->
  Forall (fun ke => 1 <= accessCount (snd ke)) (filter f m).
Proof.
  rewrite !Forall_forall. intros H x Hx. apply filter_In in Hx. now apply H.
Qed.

Lemma counts_get_in (m : JsMap.t CacheEntry) k e :
  Forall (fun ke => 1 <= accessCount (snd ke)) m ->
  JsMap.get m k = Some e -> 1 <= accessCount e.
Proof.
  induction m as [|[k' e'] m IH]; cbn [JsMap.get]; [discriminate|].
  intros H. inversion H; subst. destruct (String.eqb k' k); auto.
  now intros [= <-].
Qed.

Lemma step_counts this c :
  Forall (fun ke => 1 <= accessCount (snd ke)) (cache this) ->
  Forall (fun ke => 1 <= accessCount (snd ke)) (cache (step this c)).
Proof.
  intros H. destruct c; cbn [step].
  - unfold ResponseCache.get.
    destruct (JsMap.get (cache this) (generateKey operation params)) as [e|] eqn:E;
      [|assumption].
    destruct (now - timestamp e >? ttl e); cbn [snd cache with_cache].
    + now apply counts_filter.
    + apply counts_set; auto. cbn [accessCount].
      pose proof (counts_get_in _ _ _ H E). lia.
  - unfold ResponseCache.set. cbn [cache with_cache].
    apply counts_set; [cbn; lia|].
    destruct (_ >=? _); auto.
    unfold evictLeastRecentlyUsed.
    destruct (JsMap.size (cache this) =? 0); auto.
    destruct (fst _); auto. destruct (truthy_string _); auto.
    now apply counts_filter.
  - now apply counts_filter.
  - constructor.
  - assumption.
  - unfold ResponseCache.stopCleanup. now destruct (cleanupTimer this).
  - constructor.
  - unfold ResponseCache.timer_fires. destruct (cleanupTimer this); auto.
    unfold ResponseCache.cleanup. cbn [cache with_cache].
    rewrite fold_delete_is_filter. now apply counts_filter.
Qed.

Lemma total_accesses now (m : JsMap.t CacheEntry) : forall sum,
  Forall (fun ke => 1 <= accessCount (snd ke)) m ->
  sum + Z.of_nat (List.length m)
  <= fold_left (fun sum entry => sum + stat_accessCount entry)
               (map (fun ke => mkStatsEntry (fst ke) (now - timestamp (snd ke))
                                            (accessCount (snd ke))) m) sum.
Proof.
  induction m as [|ke m IH]; intros sum H; cbn [map fold_left List.length].
  - lia.
  - inversion H; subst. specialize (IH (sum + accessCount (snd ke)) H3).
    cbn [stat_accessCount]. lia.
Qed.

(** X7. In every cache reached from construction each entry has been
    accessed at least once, and [getStats] reports as many entries as
    the cache holds, each with an [accessCount] of at least 1, and a
    [hitRate] that is 0 for an empty cache and lies in (0, 1]
    otherwise. *)
Theorem stats_of_reachable_cache (o : CacheOptions) (calls : list Call) (now : Z) :
  let this := run (init o) calls in
  let stats := fst (ResponseCache.getStats this now) in
  Forall (fun ke => 1 <= accessCount (snd ke)) (cache this) /\
  stats_size stats = Z.of_nat (List.length (entries stats)) /\
  Forall (fun entry => 1 <= stat_accessCount entry) (entries stats) /\
  (cache this = [] -> hitRate stats = Qmake 0 1) /\
  (cache this <> [] -> (0 < hitRate stats)%Q /\ (hitRate stats <= 1)%Q).
Proof.
  intros this stats.
  assert (Hc : Forall (fun ke => 1 <= accessCount (snd ke)) (cache this)).
  { subst this. generalize (init o) (eq_ind_r (fun m => Forall _ m)
      (Forall_nil (fun ke : string * CacheEntry => 1 <= accessCount (snd ke)))
      (init_cache o)).
    induction calls as [|c calls IH]; intros this0 H0; [exact H0|].
    unfold run. cbn [fold_left]. fold (run (step this0 c) calls).
    apply IH. now apply step_counts. }
  split; [exact Hc|].
  subst stats. unfold ResponseCache.getStats. cbn [fst stats_size entries hitRate].
  split; [unfold JsMap.size; now rewrite length_map|].
  split.
  { rewrite Forall_forall in *. intros entry Hin. apply in_map_iff in Hin.
    destruct Hin as (ke & <- & Hin). cbn [stat_accessCount]. now apply Hc. }
  pose proof (total_accesses now (cache this) 0 Hc) as Htot.
  split.
  - intros Hnil. rewrite Hnil. reflexivity.
  - intros Hne.
    assert (Hpos : 0 < Z.of_nat (List.length (cache this))).
    { destruct (cache this); [congruence | cbn; lia]. }
    match goal with |- context [?t >? 0] => set (total := t) in * end.
    destruct (Z.gtb_spec total 0) as [Hgt|Hle]; [|lia].
    unfold Qlt, Qle, JsMap.size. cbn [Qnum Qden].
    rewrite Z2Pos.id by lia. lia.
Qed.

(** ** The shape of a key *)

Lemma string_length_append (s1 s2 : string) :
  String.length (s1 ++ s2)%string = (String.length s1 + String.length s2)%nat.
Proof. induction s1; cbn; auto. Qed.

Lemma string_append_same_length (s1 s2 t1 t2 : string) :
  String.length s1 = String.length s2 ->
  (s1 ++ t1)%string = (s2 ++ t2)%string -> s1 = s2 /\ t1 = t2.
Proof.
  revert s2. induction s1 as [|a s1 IH]; intros [|b s2]; cbn; try discriminate.
  - auto.
  - intros [= Hlen] [= -> Happ]. destruct (IH s2 Hlen Happ). split; congruence.
Qed.

Lemma all_chars_append p (s1 s2 : string) :
  all_chars p (s1 ++ s2)%string = all_chars p s1 && all_chars p s2.
Proof. induction s1; cbn; auto. now rewrite IHs1, andb_assoc. Qed.

Lemma round_length st kw : List.length (Sha256.round st kw) = List.length st.
Proof.
  unfold Sha256.round.
  destruct st as [|a [|b [|c [|d [|e [|f [|g [|h [|i st]]]]]]]]]; reflexivity.
Qed.

Lemma rounds_length kws : forall st,
  List.length (fold_left Sha256.round kws st) = List.length st.
Proof.
  induction kws as [|kw kws IH]; intros st; cbn [fold_left]; auto.
  now rewrite IH, round_length.
Qed.

Lemma compress_length h block :
  List.length (Sha256.compress h block) = List.length h.
Proof.
  unfold Sha256.compress. rewrite length_map, length_combine, rounds_length.
  apply Nat.min_id.
Qed.

Lemma digest_length s : List.length (Sha256.digest s) = 8%nat.
Proof.
  unfold Sha256.digest.
  generalize (Sha256.blocks
                (List.length (Sha256.words (List.length (Sha256.pad (Sha256.bytes_of_string s)) / 4)
                                           (Sha256.pad (Sha256.bytes_of_string s))) / 16)
                (Sha256.words (List.length (Sha256.pad (Sha256.bytes_of_string s)) / 4)
                              (Sha256.pad (Sha256.bytes_of_string s)))).
  intros bl. change 8%nat with (List.length Sha256.H0). generalize Sha256.H0.
  induction bl as [|b bl IH]; intros h; cbn [fold_left]; auto.
  now rewrite IH, compress_length.
Qed.

Lemma hex_digit_lower_hex n : lower_hex (hex_digit n) = true.
Proof.
  unfold hex_digit.
  destruct (N.to_nat n) as [|[|[|[|[|[|[|[|[|[|[|[|[|[|[|[|k]]]]]]]]]]]]]]]];
    reflexivity.
Qed.

Lemma hex_of_word_shape n x :
  String.length (Sha256.hex_of_word n x) = n /\
  all_chars lower_hex (Sha256.hex_of_word n x) = true.
Proof.
  induction n as [|n [IH1 IH2]]; cbn [Sha256.hex_of_word String.length all_chars].
  - auto.
  - rewrite hex_digit_lower_hex, IH1, IH2. auto.
Qed.

Lemma concat_hex_shape (ws : list Z) :
  String.length (String.concat EmptyString (map (Sha256.hex_of_word 8) ws))
  = (8 * List.length ws)%nat /\
  all_chars lower_hex (String.concat EmptyString (map (Sha256.hex_of_word 8) ws)) = true.
Proof.
  induction ws as [|w ws [IH1 IH2]]; [auto|].
  destruct (hex_of_word_shape 8 w) as [H1 H2].
  destruct ws as [|w' ws].
  - cbn [map String.concat List.length]. rewrite H1, H2. auto.
  - change (String.concat EmptyString (map (Sha256.hex_of_word 8) (w :: w' :: ws)))
      with (Sha256.hex_of_word 8 w
            ++ String.concat EmptyString (map (Sha256.hex_of_word 8) (w' :: ws)))%string.
    rewrite string_length_append, all_chars_append, H1, H2, IH1, IH2.
    cbn [List.length]. split; [lia | reflexivity].
Qed.

Lemma substring_prefix_shape p m : forall s,
  (m <= String.length s)%nat ->
  all_chars p s = true ->
  String.length (String.substring 0 m s) = m /\
  all_chars p (String.substring 0 m s) = true.
Proof.
  induction m as [|m IH]; intros s Hlen Hall.
  - destruct s; cbn; auto.
  - destruct s as [|c s]; cbn in Hlen; [lia|].
    cbn [all_chars] in Hall. apply andb_true_iff in Hall. destruct Hall as [Hc Hs].
    destruct (IH s ltac:(lia) Hs) as [H1 H2].
    cbn [String.substring String.length all_chars]. rewrite H1, H2, Hc. auto.
Qed.

Lemma generateKey_shape_aux (operation : string) (params : JsObject) :
  exists h,
    generateKey operation params = (operation ++ "_" ++ h)%string /\
    String.length h = 16%nat.
Proof.
  unfold generateKey.
  match goal with |- context [Sha256.sha256_hex ?s] => set (msg := s) end.
  exists (String.substring 0 16 (Sha256.sha256_hex msg)).
  split; [reflexivity|].
  unfold Sha256.sha256_hex.
  destruct (concat_hex_shape (Sha256.digest msg)) as [H1 H2].
  rewrite digest_length in H1.
  apply (substring_prefix_shape lower_hex); [rewrite H1; cbn; lia | exact H2].
Qed.

(** X9. Every cache key is the operation name, an underscore and 16
    lower-case hexadecimal digits. *)
Theorem generateKey_shape (operation : string) (params : JsObject) :
  exists h,
    generateKey operation params = (operation ++ "_" ++ h)%string /\
    String.length h = 16%nat /\
    all_chars lower_hex h = true.
Proof.
  unfold generateKey.
  match goal with |- context [Sha256.sha256_hex ?s] => set (msg := s) end.
  exists (String.substring 0 16 (Sha256.sha256_hex msg)).
  split; [reflexivity|].
  unfold Sha256.sha256_hex.
  destruct (concat_hex_shape (Sha256.digest msg)) as [H1 H2].
  rewrite digest_length in H1.
  apply substring_prefix_shape; [rewrite H1; cbn; lia | exact H2].
Qed.

(** X10. Requests for different operations never share a cache key,
    whatever their parameters (and whatever the digests): the entries of
    one operation cannot be returned for, overwritten by or deleted
    through another operation's key. *)
Theorem keys_of_different_operations_differ (operation1 operation2 : string)
  (params1 params2 : JsObject) :
  operation1 <> operation2 ->
  generateKey operation1 params1 <> generateKey operation2 params2.
Proof.
  intros Hne Heq.
  destruct (generateKey_shape_aux operation1 params1) as (h1 & E1 & L1).
  destruct (generateKey_shape_aux operation2 params2) as (h2 & E2 & L2).
  rewrite E1, E2 in Heq.
  assert (Hlen : String.length operation1 = String.length operation2).
  { apply (f_equal String.length) in Heq.
    rewrite !string_length_append in Heq. cbn [String.length] in Heq. lia. }
  now destruct (string_append_same_length _ _ _ _ Hlen Heq).
Qed.

(** ** What invalidateCache counts *)

Lemma split_first_free sep s :
  ~ In sep (list_ascii_of_string (split_first sep s)).
Proof.
  induction s as [|c s IH]; cbn [split_first list_ascii_of_string In]; [tauto|].
  destruct (Ascii.eqb_spec c sep) as [->|Hne]; cbn [list_ascii_of_string In]; tauto.
Qed.

Lemma split_first_append sep s t :
  split_first sep (s ++ String sep t)%string = split_first sep s.
Proof.
  induction s as [|c s IH]; cbn [append split_first].
  - now rewrite Ascii.eqb_refl.
  - now rewrite IH.
Qed.

Lemma split_first_generateKey operation params :
  split_first "_" (generateKey operation params) = split_first "_" operation.
Proof.
  unfold generateKey.
  change (operation ++ "_" ++ ?h)%string with (operation ++ String "_" h)%string.
  apply split_first_append.
Qed.

(** X11. [invalidateCache] counts an entry exactly when the pattern is
    the entry's operation name up to its first underscore. Hence a
    pattern that contains an underscore, such as every operation name
    of [CacheKeys], counts nothing in any cache. *)
Theorem invalidateCache_matches_first_segment (this : ResponseCache.t)
  (pattern : string) (now : Z) (operation : string) (params : JsObject)
  (data : JsValue) (customTtl : option Z) (stored : Z) :
  (In "_"%char (list_ascii_of_string pattern) ->
   fst (invalidateCache this pattern now) = 0) /\
  fst (invalidateCache
         (ResponseCache.set (ResponseCache.clear this) operation params data
                            customTtl stored) pattern now)
  = if String.eqb (split_first "_" operation) pattern then 1 else 0.
Proof.
  unfold invalidateCache, ResponseCache.getStats. cbn [fst snd entries].
  rewrite !invalidate_count. split.
  - intros Hin.
    assert (E : filter (fun k => String.eqb (split_first "_" k) pattern)
                       (JsMap.keys (cache this)) = []).
    { induction (JsMap.keys (cache this)) as [|k ks IH]; cbn [filter]; auto.
      destruct (String.eqb_spec (split_first "_" k) pattern) as [E|_]; auto.
      exfalso. apply (split_first_free "_" k). now rewrite E. }
    now rewrite E.
  - unfold ResponseCache.set, ResponseCache.clear.
    cbn [cache options with_cache].
    assert (E : cache (if JsMap.size (@nil (string * CacheEntry)) >=? maxSize (options this)
                       then evictLeastRecentlyUsed
                              (mkCache [] (options this) (cleanupTimer this))
                       else mkCache [] (options this) (cleanupTimer this)) = []).
    { destruct (_ >=? _); [rewrite evict_empty|]; reflexivity. }
    unfold with_cache in *. cbn [cache options cleanupTimer] in *. rewrite E.
    cbn [JsMap.set JsMap.keys map fst filter]. rewrite split_first_generateKey.
    now destruct (String.eqb (split_first "_" operation) pattern).
Qed.

(** * Properties of the parameter utilities *)

(** ** Property assignment *)

Section PropertyFacts.
Implicit Types (o : JsObject) (k x : string) (v : JsValue).

Lemma has_prop_in o k : has_prop o k = true <-> In k (Object_keys o).
Proof.
  unfold has_prop, Object_keys. rewrite existsb_exists. split.
  - intros ([k' v] & Hin & Heq). apply String.eqb_eq in Heq. cbn in Heq. subst.
    change k with (fst (k, v)). now apply in_map.
  - intros Hin. apply in_map_iff in Hin. destruct Hin as (kv & <- & Hin).
    exists kv. split; [assumption | apply String.eqb_refl].
Qed.

Lemma has_prop_cons o k k' v :
  has_prop ((k', v) :: o) k = String.eqb k' k || has_prop o k.
Proof. reflexivity. Qed.

Lemma prop_replace_keys o k v : Object_keys (prop_replace o k v) = Object_keys o.
Proof.
  unfold Object_keys. induction o as [|[k' v'] o IH]; cbn [prop_replace map]; auto.
  destruct (String.eqb k' k); cbn [map fst]; [reflexivity | now rewrite IH].
Qed.

Lemma prop_insert_index_keys o i k v x :
  In x (Object_keys (prop_insert_index o i k v)) <-> x = k \/ In x (Object_keys o).
Proof.
  unfold Object_keys. induction o as [|[k' v'] o IH]; cbn [prop_insert_index map In fst].
  - intuition.
  - destruct (array_index k') as [j|]; [destruct (i <? j)%N|]; cbn [map In fst];
      rewrite ?IH; intuition.
Qed.

Lemma prop_set_keys o k v x :
  In x (Object_keys (prop_set o k v)) <->
  In x (Object_keys o) \/ (x = k /\ k <> "__proto__").
Proof.
  unfold prop_set. destruct (String.eqb_spec k "__proto__") as [->|Hne].
  - intuition.
  - destruct (has_prop o k) eqn:Hhas.
    + rewrite prop_replace_keys. apply has_prop_in in Hhas.
      split; [tauto | intros [H|[-> _]]; assumption].
    + destruct (array_index k) as [i|].
      * rewrite prop_insert_index_keys. intuition.
      * unfold Object_keys. rewrite map_app, in_app_iff. cbn [map In fst]. intuition.
Qed.

Lemma prop_get_replace_same o k v :
  has_prop o k = true -> prop_get (prop_replace o k v) k = v.
Proof.
  induction o as [|[k' v'] o IH]; [discriminate|].
  rewrite has_prop_cons. cbn [prop_replace prop_get].
  destruct (String.eqb k' k) eqn:E; cbn [prop_get orb]; rewrite E; auto.
Qed.

Lemma prop_get_replace_other o k k' v :
  k <> k' -> prop_get (prop_replace o k v) k' = prop_get o k'.
Proof.
  intros Hne. induction o as [|[k0 v0] o IH]; cbn [prop_replace prop_get]; auto.
  destruct (String.eqb_spec k0 k) as [->|Hk]; cbn [prop_get].
  - apply String.eqb_neq in Hne. now rewrite Hne.
  - now rewrite IH.
Qed.

Lemma prop_get_insert_same o i k v :
  has_prop o k = false -> prop_get (prop_insert_index o i k v) k = v.
Proof.
  induction o as [|[k' v'] o IH]; cbn [prop_insert_index prop_get].
  - now rewrite String.eqb_refl.
  - rewrite has_prop_cons. intros H. apply orb_false_iff in H. destruct H as [Hk Ho].
    destruct (array_index k') as [j|]; [destruct (i <? j)%N|]; cbn [prop_get];
      rewrite ?String.eqb_refl, ?Hk; auto.
Qed.

Lemma prop_get_insert_other o i k k' v :
  k <> k' -> prop_get (prop_insert_index o i k v) k' = prop_get o k'.
Proof.
  intros Hne. apply String.eqb_neq in Hne.
  induction o as [|[k0 v0] o IH]; cbn [prop_insert_index prop_get].
  - now rewrite Hne.
  - destruct (array_index k0) as [j|]; [destruct (i <? j)%N|]; cbn [prop_get];
      rewrite ?Hne, ?IH; auto.
Qed.

Lemma prop_get_app_same o k v :
  has_prop o k = false -> prop_get (o ++ [(k, v)]) k = v.
Proof.
  induction o as [|[k' v'] o IH]; cbn [app prop_get].
  - now rewrite String.eqb_refl.
  - rewrite has_prop_cons. intros H. apply orb_false_iff in H. destruct H as [Hk Ho].
    rewrite Hk. auto.
Qed.

Lemma prop_get_app_other o k k' v :
  k <> k' -> prop_get (o ++ [(k, v)]) k' = prop_get o k'.
Proof.
  intros Hne. apply String.eqb_neq in Hne.
  induction o as [|[k0 v0] o IH]; cbn [app prop_get].
  - now rewrite Hne.
  - now rewrite IH.
Qed.

(** Reading back what was assigned. *)
Lemma prop_get_set_same o k v :
  k <> "__proto__" -> prop_get (prop_set o k v) k = v.
Proof.
  intros Hne. unfold prop_set. apply String.eqb_neq in Hne. rewrite Hne.
  destruct (has_prop o k) eqn:Hhas.
  - now apply prop_get_replace_same.
  - destruct (array_index k); [now apply prop_get_insert_same | now apply prop_get_app_same].
Qed.

Lemma prop_get_set_other o k k' v :
  k <> k' -> prop_get (prop_set o k v) k' = prop_get o k'.
Proof.
  intros Hne. unfold prop_set. destruct (String.eqb k "__proto__"); auto.
  destruct (has_prop o k).
  - now apply prop_get_replace_other.
  - destruct (array_index k);
      [now apply prop_get_insert_other | now apply prop_get_app_other].
Qed.

End PropertyFacts.

(** ** Assignment to [result] *)

Section AssignFacts.
Implicit Types (o : Obj) (k x : string) (v : JsValue).

Lemma assign_ordinary o k v :
  k <> "__proto__" -> assign o k v = mkObj (prototype o) (prop_set (own o) k v).
Proof.
  intros Hne. unfold assign. apply String.eqb_neq in Hne. now rewrite Hne.
Qed.

(** An assignment adds at most its own key to the own properties. *)
Lemma assign_keys_sub o k v x :
  In x (Object_keys (own (assign o k v))) -> In x (Object_keys (own o)) \/ x = k.
Proof.
  unfold assign. destruct (String.eqb_spec k "__proto__") as [->|Hne].
  - destruct (has_prop (own o) "__proto__"); cbn [own].
    + rewrite prop_replace_keys. tauto.
    + destruct (inherited_proto (prototype o)); [destruct v| |]; cbn [own];
        try tauto;
        unfold Object_keys; rewrite map_app, in_app_iff; cbn [map In fst]; intuition.
  - cbn [own]. rewrite prop_set_keys. intuition.
Qed.

(** It removes none, and adds its key unless the key is ["__proto__"]. *)
Lemma assign_keys_sup o k v x :
  In x (Object_keys (own o)) \/ (x = k /\ k <> "__proto__") ->
  In x (Object_keys (own (assign o k v))).
Proof.
  unfold assign. destruct (String.eqb_spec k "__proto__") as [->|Hne].
  - intros [H|[_ H]]; [|congruence].
    destruct (has_prop (own o) "__proto__"); cbn [own].
    + now rewrite prop_replace_keys.
    + destruct (inherited_proto (prototype o)); [destruct v| |]; cbn [own];
        try assumption;
        unfold Object_keys; rewrite map_app, in_app_iff; now left.
  - cbn [own]. rewrite prop_set_keys. tauto.
Qed.

(** The accessor is the only way to the prototype: while the prototype
    is [Object.prototype], an assignment to ["__proto__"] creates no own
    property. *)
Lemma assign_proto_accessor o v :
  prototype o = None ->
  ~ In "__proto__" (Object_keys (own o)) ->
  own (assign o "__proto__" v) = own o.
Proof.
  intros Hp Hown. unfold assign. rewrite String.eqb_refl.
  destruct (has_prop (own o) "__proto__") eqn:Hhas.
  - apply has_prop_in in Hhas. contradiction.
  - rewrite Hp. cbn [inherited_proto]. now destruct v.
Qed.

Lemma assign_get_same o k v :
  k <> "__proto__" -> prop_get (own (assign o k v)) k = v.
Proof.
  intros Hne. rewrite assign_ordinary by assumption. cbn [own].
  now apply prop_get_set_same.
Qed.

Lemma assign_get_other o k k' v :
  k <> k' -> prop_get (own (assign o k v)) k' = prop_get (own o) k'.
Proof.
  intros Hne. unfold assign. destruct (String.eqb k "__proto__").
  - destruct (has_prop (own o) k); cbn [own].
    + now apply prop_get_replace_other.
    + destruct (inherited_proto (prototype o)); [destruct v| |]; cbn [own];
        try reflexivity; now apply prop_get_app_other.
  - cbn [own]. now apply prop_get_set_other.
Qed.

End AssignFacts.

(** ** extractParameters *)

Lemma extract_one_member a1 a2 spec :
  member a1 (name spec) = member a2 (name spec) ->
  extract_one a1 spec = extract_one a2 spec.
Proof.
  intros H. unfold extract_one, getRequiredStringParam, getOptionalStringParam,
    getRequiredNumberParam, getOptionalNumberParam, getRequiredBooleanParam,
    getOptionalBooleanParam, getArrayParam.
  now rewrite H.
Qed.

Lemma extract_loop_member a1 a2 specs :
  (forall spec, In spec specs -> member a1 (name spec) = member a2 (name spec)) ->
  forall result, extract_loop a1 specs result = extract_loop a2 specs result.
Proof.
  induction specs as [|spec rest IH]; intros Hagree result; [reflexivity|].
  cbn [extract_loop].
  rewrite (extract_one_member a1 a2 spec) by (apply Hagree; now left).
  destruct (extract_one a2 spec); [|reflexivity].
  apply IH. intros s Hs. apply Hagree. now right.
Qed.

(** X12. The outcome of [extractParameters] (the extracted object or
    the error thrown) depends on the arguments only through the declared
    parameters: two argument objects that agree on every declared name
    give the same outcome, whatever else they contain. *)
Theorem extractParameters_reads_declared_only (args1 args2 : JsObject)
  (paramSpecs : list ParamSpec) :
  (forall spec, In spec paramSpecs ->
                member args1 (name spec) = member args2 (name spec)) ->
  extractParameters (JObj args1) paramSpecs = extractParameters (JObj args2) paramSpecs.
Proof.
  intros Hagree. unfold extractParameters. cbn [validateArgumentsObject].
  now rewrite (extract_loop_member args1 args2 paramSpecs Hagree).
Qed.

Lemma extract_loop_keys_sub a specs : forall r0 r,
  extract_loop a specs r0 = Returns r ->
  forall x, In x (Object_keys (own r)) ->
            In x (Object_keys (own r0)) \/ In x (map name specs).
Proof.
  induction specs as [|spec rest IH]; intros r0 r H x Hx; cbn [extract_loop] in H.
  - injection H as <-. now left.
  - destruct (extract_one a spec) as [v|]; [|discriminate].
    cbn [map In]. destruct (IH _ _ H x Hx) as [Hin|Hin]; [|tauto].
    apply assign_keys_sub in Hin. destruct Hin as [Hin| ->]; auto.
Qed.

Lemma extract_loop_keys_sup a specs : forall r0 r,
  extract_loop a specs r0 = Returns r ->
  forall x, In x (Object_keys (own r0)) \/ (In x (map name specs) /\ x <> "__proto__") ->
            In x (Object_keys (own r)).
Proof.
  induction specs as [|spec rest IH]; intros r0 r H x Hx; cbn [extract_loop] in H.
  - injection H as <-. cbn [map In] in Hx. tauto.
  - destruct (extract_one a spec) as [v|]; [|discriminate].
    apply (IH _ _ H x). cbn [map In] in Hx.
    destruct Hx as [Hx|[[Hx|Hx] Hne]].
    + left. apply assign_keys_sup. now left.
    + left. apply assign_keys_sup. right. split; congruence.
    + right. now split.
Qed.

(** As long as no remaining specification is named ["__proto__"], no
    own property of that name appears. *)
Lemma extract_loop_no_proto_name a specs : forall r0 r,
  ~ In "__proto__" (map name specs) ->
  extract_loop a specs r0 = Returns r ->
  ~ In "__proto__" (Object_keys (own r0)) ->
  ~ In "__proto__" (Object_keys (own r)).
Proof.
  intros r0 r Hnames H Hown Hin.
  destruct (extract_loop_keys_sub a specs r0 r H _ Hin); contradiction.
Qed.

Lemma extract_loop_proto_once a specs : forall r0 r,
  NoDup (map name specs) ->
  extract_loop a specs r0 = Returns r ->
  prototype r0 = None ->
  ~ In "__proto__" (Object_keys (own r0)) ->
  ~ In "__proto__" (Object_keys (own r)).
Proof.
  induction specs as [|spec rest IH]; intros r0 r Hnd H Hp Hown;
    cbn [extract_loop] in H.
  - now injection H as <-.
  - cbn [map] in Hnd. inversion Hnd as [|? ? Hnotin Hnd']; subst.
    destruct (extract_one a spec) as [v|]; [|discriminate].
    destruct (String.eqb_spec (name spec) "__proto__") as [E|Hne].
    + rewrite E in H, Hnotin.
      apply (extract_loop_no_proto_name a rest _ r Hnotin H).
      now rewrite assign_proto_accessor.
    + rewrite assign_ordinary in H by assumption.
      apply (IH _ _ Hnd' H); cbn [prototype own]; [assumption|].
      rewrite prop_set_keys. intuition congruence.
Qed.

(** X13. When [extractParameters] succeeds, every own property of the
    object it returns is a declared name, and every declared name other
    than ["__proto__"] is an own property: a declared parameter is
    present even when its value is [undefined], and an undeclared
    argument never reaches the result. A parameter named ["__proto__"]
    goes to the prototype accessor and is no own property when the
    declared names are distinct (declared twice, it can become one: a
    first assignment of [null] removes the accessor). *)
Theorem extractParameters_keys (args : JsValue) (paramSpecs : list ParamSpec)
  (result : JsObject) :
  extractParameters args paramSpecs = Returns result ->
  (forall x, In x (Object_keys result) -> In x (map name paramSpecs)) /\
  (forall x, In x (map name paramSpecs) -> x <> "__proto__" ->
             In x (Object_keys result)) /\
  (NoDup (map name paramSpecs) -> ~ In "__proto__" (Object_keys result)).
Proof.
  unfold extractParameters.
  destruct (validateArgumentsObject args) as [a|]; [|discriminate].
  destruct (extract_loop a paramSpecs empty_object) as [r|] eqn:H; [|discriminate].
  intros [= <-]. split; [|split].
  - intros x Hx. destruct (extract_loop_keys_sub a paramSpecs _ _ H x Hx) as [[]|Hin].
    exact Hin.
  - intros x Hx Hne. apply (extract_loop_keys_sup a paramSpecs _ _ H x). now right.
  - intros Hnd. apply (extract_loop_proto_once a paramSpecs _ _ Hnd H); [reflexivity|].
    intros [].
Qed.

(** Declared twice, ["__proto__"] becomes an own property once a first
    assignment of [null] has removed the accessor. *)
Example extractParameters_proto_declared_twice :
  extractParameters
    (JObj [("__proto__", JNull)])
    [mkSpec "__proto__" TString None (Some JNull);
     mkSpec "__proto__" TString None (Some JNull)]
  = Returns [("__proto__", JNull)].
Proof. reflexivity. Qed.

Lemma extract_loop_values a specs : forall r0 r,
  NoDup (map name specs) ->
  extract_loop a specs r0 = Returns r ->
  (forall spec, In spec specs -> name spec <> "__proto__" ->
                extract_one a spec = Returns (prop_get (own r) (name spec))) /\
  (forall k, ~ In k (map name specs) -> prop_get (own r) k = prop_get (own r0) k).
Proof.
  induction specs as [|spec rest IH]; intros r0 r Hnd H; cbn [extract_loop] in H.
  - injection H as <-. split; [intros spec [] | reflexivity].
  - inversion Hnd as [|? ? Hnotin Hnd']; subst.
    destruct (extract_one a spec) as [v|] eqn:Hone; [|discriminate].
    destruct (IH _ _ Hnd' H) as [Hin Hout]. split.
    + intros s [<-|Hs] Hproto.
      * rewrite Hone, (Hout _ Hnotin), assign_get_same by assumption. reflexivity.
      * now apply Hin.
    + intros k Hk. cbn [map In] in Hk.
      rewrite Hout by tauto. apply assign_get_other. tauto.
Qed.

(** X14. When [extractParameters] succeeds on specifications with
    distinct names, the value it returns under each declared name is the
    one the single-parameter function for that specification returns;
    in particular a required string, number, boolean or array parameter
    is then an own property of the arguments of that very type (a string
    not made of white space only), returned unchanged, and an optional
    parameter that is absent or [null] is returned as its default. *)
Theorem extractParameters_values (args : JsValue) (paramSpecs : list ParamSpec)
  (result : JsObject) (spec : ParamSpec) :
  NoDup (map name paramSpecs) ->
  extractParameters args paramSpecs = Returns result ->
  In spec paramSpecs ->
  name spec <> "__proto__" ->
  exists validatedArgs,
    args = JObj validatedArgs /\
    extract_one validatedArgs spec = Returns (prop_get result (name spec)) /\
    (required spec = Some true ->
     match type spec with
     | TString => exists s, member validatedArgs (name spec) = Own (JStr s) /\
                            blank s = false /\
                            prop_get result (name spec) = JStr s
     | TNumber => exists n, member validatedArgs (name spec) = Own (JNum n) /\
                            prop_get result (name spec) = JNum n
     | TBoolean => exists b, member validatedArgs (name spec) = Own (JBool b) /\
                             prop_get result (name spec) = JBool b
     | TArray => exists items, member validatedArgs (name spec) = Own (JArr items) /\
                               prop_get result (name spec) = JArr items
     | TOther _ => False
     end) /\
    (required spec <> Some true ->
     type spec <> TArray ->
     member validatedArgs (name spec) = Own JUndefined \/
     member validatedArgs (name spec) = Own JNull ->
     prop_get result (name spec) = default (defaultValue spec) JUndefined).
Proof.
  intros Hnd H Hin Hproto. unfold extractParameters in H.
  destruct args as [| | | | | |a]; cbn [validateArgumentsObject] in H; try discriminate.
  exists a. split; [reflexivity|].
  destruct (extract_loop a paramSpecs empty_object) as [r|] eqn:Hloop; [|discriminate].
  injection H as <-.
  destruct (extract_loop_values a paramSpecs _ r Hnd Hloop) as [Hval _].
  specialize (Hval spec Hin Hproto). split; [exact Hval|].
  revert Hval. generalize (prop_get (own r) (name spec)). intros v Hval.
  unfold extract_one, getRequiredStringParam, getOptionalStringParam,
    getRequiredNumberParam, getOptionalNumberParam, getRequiredBooleanParam,
    getOptionalBooleanParam, getArrayParam, lift in Hval.
  split.
  - intros Hreq. rewrite Hreq in Hval. cbn [default] in Hval.
    destruct (type spec); [| | | |discriminate];
      destruct (member a (name spec)) as [[| | | | | |]|]; try discriminate.
    + destruct (blank s) eqn:Hb; [discriminate|]. injection Hval as <-. eauto.
    + injection Hval as <-. eauto.
    + injection Hval as <-. eauto.
    + injection Hval as <-. eauto.
  - intros Hopt Harr Habsent.
    assert (Hreq : default (required spec) false = false).
    { destruct (required spec) as [[|]|]; [congruence | reflexivity | reflexivity]. }
    rewrite Hreq in Hval.
    destruct (type spec); [| | |congruence|discriminate];
      destruct Habsent as [E|E]; rewrite E in Hval; now injection Hval as <-.
Qed.

(** * Properties of the response utilities *)

(** ** Error classification *)

Ltac name_tests :=
  repeat match goal with
         | |- context [@Normal bool ?b] =>
             tryif is_var b then fail
             else tryif first [constr_eq b true | constr_eq b false] then fail
             else (generalize b; intro)
         end.

Ltac next_test :=
  match goal with
  | |- context [either (@Normal bool ?b) _] => is_var b; destruct b; cbn [either]
  | |- context [match @Normal bool ?b with _ => _ end] =>
      is_var b; destruct b; cbn iota
  | |- context [if ?b then _ else _] => is_var b; destruct b; cbn iota
  end.

(** X15. Every error that [classifyError] labels [SERVICE_ERROR] is
    retryable according to [isRetryableError]. *)
Theorem service_errors_are_retryable (error : JsValue) :
  classifyError error = Normal "SERVICE_ERROR" ->
  isRetryableError error = Normal true.
Proof.
  unfold classifyError, isRetryableError.
  generalize (or_else (optional_read error "name") (JStr EmptyString)).
  generalize (optional_read (optional_read error "$metadata") "httpStatusCode").
  intros status errorCode.
  destruct errorCode; cbn [errorCode_includes]; try (cbn [either]; discriminate);
    name_tests;
    repeat (next_test; try (intros H; discriminate H)); intros _; reflexivity.
Qed.

(** X16. The two functions throw on the same errors (those whose
    [name] is truthy and neither a string nor an array, so that it has
    no [includes] method), and throw the same value. *)
Theorem classification_throws_together (error : JsValue) (thrown : JsValue) :
  classifyError error = Throw thrown <-> isRetryableError error = Throw thrown.
Proof.
  unfold classifyError, isRetryableError.
  generalize (or_else (optional_read error "name") (JStr EmptyString)).
  generalize (optional_read (optional_read error "$metadata") "httpStatusCode").
  intros status errorCode.
  destruct errorCode; cbn [errorCode_includes]; try (cbn [either]; tauto);
    generalize (truthy status && retryable_status status); intros ok;
    name_tests;
    repeat (next_test; try (split; intros H; discriminate H)).
  all: cbv beta iota zeta delta [either]; split; intros H;
    injection H as <-; reflexivity.
Qed.

Lemma retryable_status_truthy status :
  truthy status && retryable_status status = retryable_status status.
Proof.
  destruct status as [| | |n| | |]; cbn [truthy retryable_status];
    rewrite ?andb_false_r; try reflexivity.
  destruct (Z.eqb_spec n 0) as [->|]; reflexivity.
Qed.

(** X17. An error without a name (a value that is [undefined], [null]
    or not an object, or an object whose [name] is missing or falsy) is
    classified [UNKNOWN_ERROR]; it is retryable exactly when its
    [$metadata.httpStatusCode] is one of 429, 500, 502, 503, 504. *)
Theorem nameless_errors (error : JsValue) :
  truthy (optional_read error "name") = false ->
  classifyError error = Normal "UNKNOWN_ERROR" /\
  isRetryableError error
  = Normal (retryable_status
              (optional_read (optional_read error "$metadata") "httpStatusCode")).
Proof.
  intros H. unfold classifyError, isRetryableError, or_else. rewrite H.
  cbn [errorCode_includes either includes String.prefix].
  split; [reflexivity|]. rewrite retryable_status_truthy.
  now destruct (retryable_status _).
Qed.

(** ** Request identifiers *)

Lemma string_append_cancel (s a b : string) :
  (s ++ a)%string = (s ++ b)%string -> a = b.
Proof. induction s; cbn; [auto | intros [= H]; auto]. Qed.

Lemma split_first_absent sep s :
  ~ In sep (list_ascii_of_string s) -> split_first sep s = s.
Proof.
  induction s as [|c s IH]; cbn [split_first list_ascii_of_string In]; auto.
  intros H. destruct (Ascii.eqb_spec c sep); [tauto|]. rewrite IH; tauto.
Qed.

Lemma digits_have_no_minus d :
  ~ In "-"%char (list_ascii_of_string (NilEmpty.string_of_uint d)).
Proof.
  induction d; cbn [NilEmpty.string_of_uint list_ascii_of_string In];
    [tauto | | | | | | | | | |]; intros [H|H]; try discriminate; tauto.
Qed.

Lemma positive_number_has_no_minus n :
  0 < n -> ~ In "-"%char (list_ascii_of_string (number_to_string n)).
Proof.
  destruct n as [|p|p]; try lia. intros _.
  unfold number_to_string. cbn [Z.to_int NilZero.string_of_int].
  unfold NilZero.string_of_uint.
  pose proof (digits_have_no_minus (Pos.to_uint p)).
  destruct (Pos.to_uint p); try assumption.
  cbn. intros [H'|[]]. discriminate.
Qed.

Lemma number_to_string_inj n m :
  number_to_string n = number_to_string m -> n = m.
Proof.
  unfold number_to_string. intros H.
  apply DecimalZ.to_int_inj.
  assert (Hn : forall z, Z.to_int z <> Decimal.Pos Decimal.Nil /\
                         Z.to_int z <> Decimal.Neg Decimal.Nil).
  { intros [|p|p]; cbn [Z.to_int]; split; try discriminate;
      intros [= E]; now apply (Unsigned.to_uint_nonnil p). }
  destruct (Hn n) as [Hn1 Hn2]. destruct (Hn m) as [Hm1 Hm2].
  pose proof (NilZero.isi _ Hn1 Hn2) as In_.
  pose proof (NilZero.isi _ Hm1 Hm2) as Im.
  rewrite H in In_. congruence.
Qed.

Lemma request_id_inj pre c1 c2 t1 t2 :
  0 < c1 -> 0 < c2 ->
  (pre ++ "-" ++ number_to_string c1 ++ "-" ++ number_to_string t1)%string
  = (pre ++ "-" ++ number_to_string c2 ++ "-" ++ number_to_string t2)%string ->
  c1 = c2.
Proof.
  intros H1 H2 H. apply string_append_cancel in H.
  apply (string_append_cancel "-") in H.
  apply (f_equal (split_first "-")) in H.
  change (?a ++ "-" ++ ?b)%string with (a ++ String "-" b)%string in H.
  rewrite !split_first_append in H.
  rewrite !split_first_absent in H by now apply positive_number_has_no_minus.
  now apply number_to_string_inj.
Qed.

Lemma request_ids_shape nows : forall st id,
  In id (request_ids st nows) ->
  exists c t, counter st < c /\
              id = (prefix st ++ "-" ++ number_to_string c ++ "-"
                    ++ number_to_string t)%string.
Proof.
  induction nows as [|now rest IH]; intros st id; cbn [request_ids generateRequestId];
    [intros []|].
  intros [<-|Hin].
  - exists (counter st + 1), now. split; [lia | reflexivity].
  - destruct (IH _ _ Hin) as (c & t & Hc & ->). cbn [counter prefix] in *.
    exists c, t. split; [lia | reflexivity].
Qed.

(** X18. The request identifiers produced by successive calls of
    [generateRequestId] are pairwise distinct, whatever the clock reads
    at each call. *)
Theorem request_ids_are_distinct (st : RequestIdState) (nows : list Z) :
  0 <= counter st ->
  NoDup (request_ids st nows).
Proof.
  revert st. induction nows as [|now rest IH]; intros st Hpos;
    cbn [request_ids generateRequestId]; constructor.
  - intros Hin. destruct (request_ids_shape _ _ _ Hin) as (c & t & Hc & Heq).
    cbn [counter prefix] in *.
    apply request_id_inj in Heq; lia.
  - apply IH. cbn [counter]. lia.
Qed.

(** * Properties of the listRecommendations handler *)

Lemma withCache_miss (this : ResponseCache.t) operation handler params customTtl
  now_get now_set calls :
  (forall entry,
      JsMap.get (cache this) (generateKey operation params) = Some entry ->
      now_get - timestamp entry > ttl entry) ->
  withCache this operation handler params customTtl now_get now_set calls
  = match handler calls with
    | Resolved result =>
        (Resolved result,
         ResponseCache.set
           (with_cache this (JsMap.delete (cache this) (generateKey operation params)))
           operation params result customTtl now_set,
         S calls)
    | Rejected reason =>
        (Rejected reason,
         with_cache this (JsMap.delete (cache this) (generateKey operation params)),
         S calls)
    end.
Proof.
  intros Hmiss. unfold withCache, ResponseCache.get.
  destruct (JsMap.get (cache this) (generateKey operation params)) as [e|] eqn:Hget.
  - specialize (Hmiss e eq_refl).
    destruct (Z.gtb_spec (now_get - timestamp e) (ttl e)); [|lia]. reflexivity.
  - rewrite map_delete_absent by assumption.
    replace (with_cache this (cache this)) with this by now destruct this.
    reflexivity.
Qed.

Section HandlerFacts.
Variable produce : JsObject -> nat -> Settled.
Variable Response : Type.
Variable formatMcpResponse : string -> JsValue -> Response.
Variable handleAwsError : Caught -> string -> JsValue -> JsValue -> JsValue.

Let handler := listRecommendations_handler produce Response formatMcpResponse
                                           handleAwsError.

(** X21. Two requests whose arguments extract to the same parameters
    share one cache entry: when the first finds no live entry and AWS
    answers it with a truthy value (every response object is one), a
    second request that arrives within the TTL of the cache is answered
    with the same value without calling AWS again. *)
Theorem listRecommendations_second_request_from_cache
  (href1 href2 : string) (args1 args2 : JsValue) (params : JsObject)
  (v : JsValue) (cache0 : ResponseCache.t) (now1 now1' now2 now2' : Z)
  (calls : nat) :
  extractParameters args1 LIST_RECOMMENDATIONS_PARAMS = Returns params ->
  extractParameters args2 LIST_RECOMMENDATIONS_PARAMS = Returns params ->
  (forall entry,
      JsMap.get (cache cache0) (generateKey CacheKeys.LIST_RECOMMENDATIONS params)
      = Some entry ->
      now1 - timestamp entry > ttl entry) ->
  produce params calls = Resolved v ->
  truthy v = true ->
  now2 - now1' <= default_ttl (options cache0) ->
  let r1 := handler href1 args1 cache0 now1 now1' calls in
  let r2 := handler href2 args2 (snd (fst r1)) now2 now2' (snd r1) in
  fst (fst r1) = formatMcpResponse href1 v /\
  snd r1 = S calls /\
  fst (fst r2) = formatMcpResponse href2 v /\
  snd r2 = S calls.
Proof.
  intros He1 He2 Hmiss Hres Htruthy Hlive r1 r2.
  assert (E1 : r1 = (formatMcpResponse href1 v,
                     ResponseCache.set
                       (with_cache cache0
                          (JsMap.delete (cache cache0)
                             (generateKey CacheKeys.LIST_RECOMMENDATIONS params)))
                       CacheKeys.LIST_RECOMMENDATIONS params v None now1',
                     S calls)).
  { subst r1 handler. unfold listRecommendations_handler. rewrite He1.
    rewrite (withCache_miss _ _ _ _ _ _ _ _ Hmiss), Hres. reflexivity. }
  subst r2 handler. rewrite E1. cbn [fst snd].
  split; [reflexivity|]. split; [reflexivity|].
  unfold listRecommendations_handler. rewrite He2.
  match goal with |- context [withCache ?c _ _ _ _ _ _ _] =>
    pose proof (set_stores_fresh_entry_aux
                  (with_cache cache0
                     (JsMap.delete (cache cache0)
                        (generateKey CacheKeys.LIST_RECOMMENDATIONS params)))
                  CacheKeys.LIST_RECOMMENDATIONS params v now1') as Hentry
  end.
  rewrite (withCache_hit _ _ _ _ None now2 now2' (S calls) _ Hentry).
  - cbn [fst snd data]. split; reflexivity.
  - cbn [timestamp ttl options with_cache]. lia.
  - exact Htruthy.
Qed.


End HandlerFacts.

(** * What eviction spares *)

Lemma map_get_in (m : JsMap.t CacheEntry) k e :
  JsMap.get m k = Some e -> In (k, e) m.
Proof.
  induction m as [|[k' e'] m IH]; cbn [JsMap.get In]; [discriminate|].
  destruct (String.eqb_spec k' k) as [->|_]; [intros [= ->]; now left | auto].
Qed.

(** X23. A [set] never evicts an entry that was accessed more recently
    than some other entry of the cache: such an entry is still bound,
    unchanged, after any [set] under another key. *)
Theorem set_spares_more_recent_entries (this : ResponseCache.t)
  (operation : string) (params : JsObject) (data : JsValue)
  (customTtl : option Z) (now : Z) (k k' : string) (e e' : CacheEntry) :
  well_formed this ->
  JsMap.get (cache this) k = Some e ->
  JsMap.get (cache this) k' = Some e' ->
  lastAccessed e' < lastAccessed e ->
  k <> generateKey operation params ->
  JsMap.get (cache (ResponseCache.set this operation params data customTtl now)) k
  = Some e.
Proof.
  intros Hwf Hk Hk' Hlt Hne. unfold ResponseCache.set. cbn [cache with_cache].
  rewrite map_get_set_other by congruence.
  destruct (JsMap.size (cache this) >=? maxSize (options this)); [|exact Hk].
  assert (Hnil : cache this <> []) by (intros E; rewrite E in Hk; discriminate).
  destruct (evict_spec this Hwf Hnil) as (m1 & kv & ev & m2 & Hm & H1 & H2 & ->).
  cbn [cache with_cache]. destruct Hwf as [Hnd _].
  rewrite <- (map_delete_middle m1 m2 kv ev) by now rewrite <- Hm.
  rewrite <- Hm.
  destruct (String.eqb_spec kv k) as [->|Hkv];
    [|now rewrite map_get_delete_other].
  exfalso.
  apply map_get_in in Hk, Hk'.
  assert (Hev : In (k, ev) (cache this))
    by (rewrite Hm; apply in_or_app; right; now left).
  rewrite (keys_determine_entries _ _ _ _ Hnd Hk Hev) in Hlt.
  rewrite Hm in Hk'. apply in_app_or in Hk'. destruct Hk' as [Hin|[Heq|Hin]].
  - specialize (H1 _ Hin). cbn [snd] in H1. lia.
  - injection Heq as _ <-. lia.
  - specialize (H2 _ Hin). cbn [snd] in H2. lia.
Qed.

(** * The statements at concrete inputs *)

Ltac decide_closed :=
  vm_compute; first [ reflexivity | discriminate | intro; discriminate ].

Ltac distinct_keys :=
  vm_compute; repeat constructor; simpl; intuition discriminate.

Lemma size_never_exceeds_maxSize_witness :
  constructor_ Fixture.test_options = Normal Fixture.test_cache /\
  1 <= maxSize (options Fixture.test_cache) /\
  JsMap.size (cache (run Fixture.test_cache Fixture.lru_calls)) <= 3.
Proof.
  assert (Hnew : constructor_ Fixture.test_options = Normal Fixture.test_cache)
    by reflexivity.
  assert (Hpos : 1 <= maxSize (options Fixture.test_cache)) by decide_closed.
  split; [exact Hnew|]. split; [exact Hpos|].
  exact (proj2 (size_never_exceeds_maxSize Fixture.test_options Fixture.test_cache
                                           Fixture.lru_calls Hnew Hpos)).
Defined.

Lemma get_expires_lazily_witness :
  JsMap.get (cache Fixture.cache_with_1) (generateKey "op" Fixture.p1)
  = Some (mkEntry Fixture.d1 0 1000 1 0) /\
  (2000 - 0 > 1000 /\
   fst (ResponseCache.get Fixture.cache_with_1 "op" Fixture.p1 2000) = JUndefined /\
   JsMap.get (cache (snd (ResponseCache.get Fixture.cache_with_1 "op" Fixture.p1 2000)))
             (generateKey "op" Fixture.p1) = None) /\
  (1000 - 0 <= 1000 /\
   fst (ResponseCache.get Fixture.cache_with_1 "op" Fixture.p1 1000) = Fixture.d1).
Proof.
  assert (Hget : JsMap.get (cache Fixture.cache_with_1) (generateKey "op" Fixture.p1)
                 = Some (mkEntry Fixture.d1 0 1000 1 0)) by decide_closed.
  assert (Hexp : 2000 - timestamp (mkEntry Fixture.d1 0 1000 1 0)
                 > ttl (mkEntry Fixture.d1 0 1000 1 0)) by decide_closed.
  assert (Hlive : 1000 - timestamp (mkEntry Fixture.d1 0 1000 1 0)
                  <= ttl (mkEntry Fixture.d1 0 1000 1 0)) by decide_closed.
  split; [exact Hget|]. split.
  - split; [exact Hexp|].
    destruct (proj1 (get_expires_lazily Fixture.cache_with_1 "op" Fixture.p1 2000 _ Hget)
                    Hexp) as (Hv & _ & Hgone).
    split; [exact Hv | exact Hgone].
  - split; [exact Hlive|].
    exact (proj2 (get_expires_lazily Fixture.cache_with_1 "op" Fixture.p1 1000 _ Hget)
                 Hlive).
Defined.

Lemma generateKey_order_independent_witness :
  NoDup (Object_keys [("a", JNum 1); ("b", JNum 2)]) /\
  Permutation [("a", JNum 1); ("b", JNum 2)] [("b", JNum 2); ("a", JNum 1)] /\
  generateKey "op" [("a", JNum 1); ("b", JNum 2)]
  = generateKey "op" [("b", JNum 2); ("a", JNum 1)].
Proof.
  assert (Hnd : NoDup (Object_keys [("a", JNum 1); ("b", JNum 2)])).
  { simpl. repeat constructor; simpl; intuition discriminate. }
  assert (Hperm : Permutation [("a", JNum 1); ("b", JNum 2)]
                              [("b", JNum 2); ("a", JNum 1)])
    by apply perm_swap.
  split; [exact Hnd|]. split; [exact Hperm|].
  exact (generateKey_order_independent "op" _ _ Hnd Hperm).
Defined.

Lemma constructor_accepts_every_options_witness :
  JsMap.get (cache Fixture.test_cache) (generateKey "nonExistent" []) = None /\
  ResponseCache.get Fixture.test_cache "nonExistent" [] 0
  = (JUndefined, Fixture.test_cache) /\
  ResponseCache.delete Fixture.test_cache "nonExistent" [] = (false, Fixture.test_cache).
Proof.
  assert (Hmiss : JsMap.get (cache Fixture.test_cache) (generateKey "nonExistent" [])
                  = None) by reflexivity.
  split; [exact Hmiss|].
  exact (proj2 (constructor_accepts_every_options Fixture.invalid_options)
               Fixture.test_cache "nonExistent" [] 0 Hmiss).
Defined.

Lemma withCache_failure_not_cached_witness :
  Fixture.failing_handler 0 = Rejected (JStr "Test error") /\
  (forall entry,
      JsMap.get (cache Fixture.cache_with_1) (generateKey "op" Fixture.p1) = Some entry ->
      2000 - timestamp entry > ttl entry) /\
  exists this',
    withCache Fixture.cache_with_1 "op" Fixture.failing_handler Fixture.p1 None
              2000 2000 0
    = (Rejected (JStr "Test error"), this', 1%nat) /\
    JsMap.get (cache this') (generateKey "op" Fixture.p1) = None.
Proof.
  assert (Hrej : Fixture.failing_handler 0 = Rejected (JStr "Test error"))
    by reflexivity.
  assert (Hmiss : forall entry,
             JsMap.get (cache Fixture.cache_with_1) (generateKey "op" Fixture.p1)
             = Some entry ->
             2000 - timestamp entry > ttl entry).
  { intros entry H.
    assert (E : JsMap.get (cache Fixture.cache_with_1) (generateKey "op" Fixture.p1)
                = Some (mkEntry Fixture.d1 0 1000 1 0)) by decide_closed.
    rewrite E in H. injection H as <-. reflexivity. }
  split; [exact Hrej|]. split; [exact Hmiss|].
  destruct (withCache_failure_not_cached Fixture.cache_with_1 "op"
              Fixture.failing_handler Fixture.p1 None 2000 2000 0 _ Hrej Hmiss)
    as (this' & Hres & _ & _ & Hgone & _).
  exists this'. split; [exact Hres | exact Hgone].
Defined.

Lemma set_evicts_first_least_recently_accessed_witness :
  (well_formed Fixture.full_cache /\
   cache Fixture.full_cache <> [] /\
   JsMap.size (cache Fixture.full_cache) >= maxSize (options Fixture.full_cache) /\
   exists m1 k e m2,
     cache Fixture.full_cache = m1 ++ (k, e) :: m2 /\
     cache (ResponseCache.set Fixture.full_cache "op" Fixture.p4 Fixture.d4 None 5)
     = JsMap.set (m1 ++ m2) (generateKey "op" Fixture.p4)
                 (fresh_entry Fixture.full_cache Fixture.d4 None 5))
  /\
  (NoDup [generateKey "op" Fixture.p1; generateKey "op" Fixture.p2;
          generateKey "op" Fixture.p3; generateKey "op" Fixture.p4] /\
   4 - 1 <= 1000 /\
   (2 < 4 \/ 3 < 4) /\
   fst (ResponseCache.get
          (run Fixture.test_cache Fixture.lru_calls) "op" Fixture.p1 6) = Fixture.d1 /\
   fst (ResponseCache.get
          (run Fixture.test_cache Fixture.lru_calls) "op" Fixture.p4 6) = Fixture.d4).
Proof.
  destruct set_evicts_first_least_recently_accessed as [Hgen Hsc].
  split.
  - assert (Hwf : well_formed Fixture.full_cache)
      by (repeat apply set_well_formed; apply init_well_formed).
    assert (Hne : cache Fixture.full_cache <> []) by decide_closed.
    assert (Hfull : JsMap.size (cache Fixture.full_cache)
                    >= maxSize (options Fixture.full_cache)) by decide_closed.
    split; [exact Hwf|]. split; [exact Hne|]. split; [exact Hfull|].
    destruct (Hgen Fixture.full_cache "op" Fixture.p4 Fixture.d4 None 5 Hwf Hne Hfull)
      as (m1 & k & e & m2 & Hm & _ & _ & Hset).
    exists m1, k, e, m2. split; [exact Hm | exact Hset].
  - assert (Hnd : NoDup [generateKey "op" Fixture.p1; generateKey "op" Fixture.p2;
                         generateKey "op" Fixture.p3; generateKey "op" Fixture.p4])
      by distinct_keys.
    assert (Hlive : 4 - 1 <= 1000) by decide_closed.
    assert (Hlater : 2 < 4 \/ 3 < 4) by (left; reflexivity).
    split; [exact Hnd|]. split; [exact Hlive|]. split; [exact Hlater|].
    destruct (Hsc "op" "op" "op" "op" Fixture.p1 Fixture.p2 Fixture.p3 Fixture.p4
                  Fixture.d1 Fixture.d2 Fixture.d3 Fixture.d4
                  1000 1 2 3 4 5 Hnd Hlive Hlater) as (_ & _ & _ & Hret).
    apply (Hret 6); decide_closed.
Defined.

Lemma set_then_get_round_trip_witness :
  500 - 0 <= ttl (fresh_entry Fixture.test_cache Fixture.d1 None 0) /\
  fst (ResponseCache.get Fixture.cache_with_1 "op" Fixture.p1 500) = Fixture.d1.
Proof.
  assert (H : 500 - 0 <= ttl (fresh_entry Fixture.test_cache Fixture.d1 None 0))
    by decide_closed.
  split; [exact H|].
  exact (set_then_get_round_trip Fixture.test_cache "op" Fixture.p1 Fixture.d1
                                 None 0 500 H).
Defined.

Lemma get_touches_only_its_key_witness :
  generateKey "op" Fixture.p2 <> generateKey "op" Fixture.p1 /\
  JsMap.get (cache (snd (ResponseCache.get Fixture.full_cache "op" Fixture.p1 4)))
            (generateKey "op" Fixture.p2)
  = JsMap.get (cache Fixture.full_cache) (generateKey "op" Fixture.p2).
Proof.
  assert (H : generateKey "op" Fixture.p2 <> generateKey "op" Fixture.p1)
    by decide_closed.
  split; [exact H|].
  exact (proj1 (get_touches_only_its_key Fixture.full_cache "op" Fixture.p1 4) _ H).
Defined.

Lemma delete_reports_presence_witness :
  (exists e, JsMap.get (cache Fixture.cache_with_1) (generateKey "op" Fixture.p1)
             = Some e) /\
  fst (ResponseCache.delete Fixture.cache_with_1 "op" Fixture.p1) = true /\
  generateKey "op" Fixture.p2 <> generateKey "op" Fixture.p1 /\
  JsMap.get (cache (snd (ResponseCache.delete Fixture.full_cache "op" Fixture.p1)))
            (generateKey "op" Fixture.p2)
  = JsMap.get (cache Fixture.full_cache) (generateKey "op" Fixture.p2) /\
  fst (ResponseCache.delete Fixture.test_cache "op" Fixture.p1) = false /\
  snd (ResponseCache.delete Fixture.test_cache "op" Fixture.p1) = Fixture.test_cache.
Proof.
  assert (Hin : exists e, JsMap.get (cache Fixture.cache_with_1)
                                    (generateKey "op" Fixture.p1) = Some e)
    by (eexists; vm_compute; reflexivity).
  assert (Hne : generateKey "op" Fixture.p2 <> generateKey "op" Fixture.p1)
    by decide_closed.
  assert (Hfalse : fst (ResponseCache.delete Fixture.test_cache "op" Fixture.p1) = false)
    by reflexivity.
  destruct (delete_reports_presence Fixture.cache_with_1 "op" Fixture.p1)
    as (Hiff & _).
  destruct (delete_reports_presence Fixture.full_cache "op" Fixture.p1)
    as (_ & _ & _ & Hother & _).
  destruct (delete_reports_presence Fixture.test_cache "op" Fixture.p1)
    as (_ & _ & _ & _ & Hsame).
  split; [exact Hin|]. split; [exact (proj2 Hiff Hin)|].
  split; [exact Hne|]. split; [exact (Hother _ Hne)|].
  split; [exact Hfalse | exact (Hsame Hfalse)].
Defined.

Lemma cleanup_removes_exactly_expired_witness :
  well_formed Fixture.dead_and_live /\
  cache (ResponseCache.cleanup Fixture.dead_and_live 100)
  = filter (fun ke => negb (expired 100 ke)) (cache Fixture.dead_and_live).
Proof.
  assert (Hwf : well_formed Fixture.dead_and_live)
    by (repeat apply set_well_formed; apply init_well_formed).
  split; [exact Hwf|].
  exact (proj1 (cleanup_removes_exactly_expired Fixture.dead_and_live 100 Hwf)).
Defined.

Lemma stats_of_reachable_cache_witness :
  cache (run (init Fixture.test_options) Fixture.lru_calls) <> [] /\
  (0 < hitRate (fst (ResponseCache.getStats
                       (run (init Fixture.test_options) Fixture.lru_calls) 6)))%Q /\
  cache (run (init Fixture.test_options) []) = [] /\
  hitRate (fst (ResponseCache.getStats (run (init Fixture.test_options) []) 6))
  = Qmake 0 1.
Proof.
  assert (Hne : cache (run (init Fixture.test_options) Fixture.lru_calls) <> [])
    by decide_closed.
  assert (Hnil : cache (run (init Fixture.test_options) []) = []) by reflexivity.
  destruct (stats_of_reachable_cache Fixture.test_options Fixture.lru_calls 6)
    as (_ & _ & _ & _ & Hrate).
  destruct (stats_of_reachable_cache Fixture.test_options [] 6)
    as (_ & _ & _ & Hzero & _).
  split; [exact Hne|]. split; [exact (proj1 (Hrate Hne))|].
  split; [exact Hnil | exact (Hzero Hnil)].
Defined.

Lemma keys_of_different_operations_differ_witness :
  "list_checks" <> "list_recommendations" /\
  generateKey "list_checks" [] <> generateKey "list_recommendations" [].
Proof.
  assert (H : "list_checks" <> "list_recommendations") by discriminate.
  split; [exact H|].
  exact (keys_of_different_operations_differ _ _ [] [] H).
Defined.

Lemma invalidateCache_matches_first_segment_witness :
  In "_"%char (list_ascii_of_string CacheKeys.LIST_CHECKS) /\
  fst (invalidateCache Fixture.full_cache CacheKeys.LIST_CHECKS 5) = 0.
Proof.
  assert (H : In "_"%char (list_ascii_of_string CacheKeys.LIST_CHECKS))
    by (cbn; tauto).
  split; [exact H|].
  exact (proj1 (invalidateCache_matches_first_segment Fixture.full_cache
                  CacheKeys.LIST_CHECKS 5 "op" [] JNull None 0) H).
Defined.

Lemma extractParameters_reads_declared_only_witness :
  (forall spec, In spec CommonParamSpecs.checkId ->
                member Sample.check_args (name spec)
                = member Sample.check_args_extra (name spec)) /\
  extractParameters (JObj Sample.check_args) CommonParamSpecs.checkId
  = extractParameters (JObj Sample.check_args_extra) CommonParamSpecs.checkId.
Proof.
  assert (H : forall spec, In spec CommonParamSpecs.checkId ->
                           member Sample.check_args (name spec)
                           = member Sample.check_args_extra (name spec)).
  { intros spec [<-|[]]. reflexivity. }
  split; [exact H|].
  exact (extractParameters_reads_declared_only _ _ _ H).
Defined.

Lemma extractParameters_keys_witness :
  extractParameters Sample.proto_args Sample.proto_specs
  = Returns Sample.proto_params /\
  NoDup (map name Sample.proto_specs) /\
  (In "debug" (Object_keys Sample.proto_params) ->
   In "debug" (map name Sample.proto_specs)) /\
  In "nextToken" (Object_keys Sample.proto_params) /\
  ~ In "__proto__" (Object_keys Sample.proto_params).
Proof.
  assert (H : extractParameters Sample.proto_args Sample.proto_specs
              = Returns Sample.proto_params) by reflexivity.
  assert (Hnd : NoDup (map name Sample.proto_specs)).
  { simpl. repeat constructor; simpl; intuition discriminate. }
  assert (Hin : In "nextToken" (map name Sample.proto_specs)) by (simpl; tauto).
  assert (Hne : "nextToken" <> "__proto__") by discriminate.
  destruct (extractParameters_keys Sample.proto_args Sample.proto_specs
              Sample.proto_params H) as (Hsub & Hsup & Hproto).
  split; [exact H|]. split; [exact Hnd|]. split; [exact (Hsub "debug")|].
  split; [exact (Hsup "nextToken" Hin Hne) | exact (Hproto Hnd)].
Defined.

Lemma extractParameters_values_witness :
  NoDup (map name CommonParamSpecs.recommendation) /\
  extractParameters (JObj Sample.check_args_extra) CommonParamSpecs.recommendation
  = Returns [("checkId", JStr "check-1"); ("language", JStr "en");
             ("accountId", JUndefined)] /\
  exists validatedArgs,
    JObj Sample.check_args_extra = JObj validatedArgs /\
    extract_one validatedArgs (mkSpec "checkId" TString (Some true) None)
    = Returns (JStr "check-1").
Proof.
  assert (Hnd : NoDup (map name CommonParamSpecs.recommendation)).
  { cbn. repeat constructor; cbn; intuition discriminate. }
  assert (H : extractParameters (JObj Sample.check_args_extra)
                                CommonParamSpecs.recommendation
              = Returns [("checkId", JStr "check-1"); ("language", JStr "en");
                         ("accountId", JUndefined)]) by (vm_compute; reflexivity).
  assert (Hin : In (mkSpec "checkId" TString (Some true) None)
                   CommonParamSpecs.recommendation) by (left; reflexivity).
  assert (Hproto : name (mkSpec "checkId" TString (Some true) None) <> "__proto__")
    by discriminate.
  split; [exact Hnd|]. split; [exact H|].
  destruct (extractParameters_values _ _ _ _ Hnd H Hin Hproto)
    as (validatedArgs & Hargs & Hone & _).
  exists validatedArgs. split; [exact Hargs | exact Hone].
Defined.

Lemma service_errors_are_retryable_witness :
  classifyError Sample.internal_error = Normal "SERVICE_ERROR" /\
  isRetryableError Sample.internal_error = Normal true.
Proof.
  assert (H : classifyError Sample.internal_error = Normal "SERVICE_ERROR")
    by (vm_compute; reflexivity).
  split; [exact H | exact (service_errors_are_retryable _ H)].
Defined.

Lemma classification_throws_together_witness :
  classifyError Sample.numeric_name
  = Throw (type_error "errorCode.includes is not a function") /\
  isRetryableError Sample.numeric_name
  = Throw (type_error "errorCode.includes is not a function").
Proof.
  assert (H : classifyError Sample.numeric_name
              = Throw (type_error "errorCode.includes is not a function"))
    by (vm_compute; reflexivity).
  split; [exact H|].
  exact (proj1 (classification_throws_together _ _) H).
Defined.

Lemma nameless_errors_witness :
  truthy (optional_read Sample.bare_503 "name") = false /\
  classifyError Sample.bare_503 = Normal "UNKNOWN_ERROR" /\
  isRetryableError Sample.bare_503 = Normal true.
Proof.
  assert (H : truthy (optional_read Sample.bare_503 "name") = false) by reflexivity.
  split; [exact H|]. exact (nameless_errors _ H).
Defined.

Lemma request_ids_are_distinct_witness :
  0 <= counter Sample.ids /\ NoDup (request_ids Sample.ids [7; 7; 7]).
Proof.
  assert (H : 0 <= counter Sample.ids) by decide_closed.
  split; [exact H | exact (request_ids_are_distinct _ _ H)].
Defined.

Lemma withCache_twice_witness :
  (forall entry,
      JsMap.get (cache Fixture.test_cache) (generateKey "op" Fixture.p1) = Some entry ->
      10 - timestamp entry > ttl entry) /\
  truthy Fixture.d1 = true /\
  20 - 10 <= default_ttl (options Fixture.test_cache) /\
  snd (withCache
         (snd (fst (withCache Fixture.test_cache "op"
                              (Fixture.constant_handler Fixture.d1) Fixture.p1 None
                              10 10 0)))
         "op" (Fixture.constant_handler Fixture.d1) Fixture.p1 None 20 20
         (snd (withCache Fixture.test_cache "op"
                         (Fixture.constant_handler Fixture.d1) Fixture.p1 None
                         10 10 0)))
  = 1%nat.
Proof.
  assert (Hmiss : forall entry,
             JsMap.get (cache Fixture.test_cache) (generateKey "op" Fixture.p1)
             = Some entry ->
             10 - timestamp entry > ttl entry) by (intros entry H; discriminate H).
  assert (Ht : truthy Fixture.d1 = true) by reflexivity.
  assert (Hl : 20 - 10 <= default_ttl (options Fixture.test_cache)) by decide_closed.
  split; [exact Hmiss|]. split; [exact Ht|]. split; [exact Hl|].
  exact (proj2 (proj2 (withCache_twice Fixture.test_cache "op" Fixture.d1 Fixture.p1
                                       10 10 20 20 0 Hmiss Ht Hl))).
Defined.

Lemma set_overwrite_below_capacity_witness :
  JsMap.get (cache Fixture.cache_with_1) (generateKey "op" Fixture.p1)
  = Some (mkEntry Fixture.d1 0 1000 1 0) /\
  JsMap.size (cache Fixture.cache_with_1) < maxSize (options Fixture.cache_with_1) /\
  JsMap.size (cache (ResponseCache.set Fixture.cache_with_1 "op" Fixture.p1
                                       Fixture.d2 None 9))
  = JsMap.size (cache Fixture.cache_with_1).
Proof.
  assert (Hget : JsMap.get (cache Fixture.cache_with_1) (generateKey "op" Fixture.p1)
                 = Some (mkEntry Fixture.d1 0 1000 1 0)) by decide_closed.
  assert (Hroom : JsMap.size (cache Fixture.cache_with_1)
                  < maxSize (options Fixture.cache_with_1)) by decide_closed.
  split; [exact Hget|]. split; [exact Hroom|].
  exact (proj1 (set_overwrite_below_capacity Fixture.cache_with_1 "op" Fixture.p1
                                             Fixture.d2 None 9 _ Hget Hroom)).
Defined.

Lemma listRecommendations_second_request_from_cache_witness :
  extractParameters Sample.warning_args LIST_RECOMMENDATIONS_PARAMS
  = Returns Sample.warning_params /\
  extractParameters Sample.warning_args_explicit LIST_RECOMMENDATIONS_PARAMS
  = Returns Sample.warning_params /\
  truthy Sample.empty_list_response = true /\
  60000 - 5 <= default_ttl (options CacheInstances.recommendations) /\
  snd (listRecommendations_handler Sample.produce_empty_list JsValue Sample.format
         Sample.describe_error "trusted-advisor://recommendations"
         Sample.warning_args_explicit
         (snd (fst (listRecommendations_handler Sample.produce_empty_list JsValue
                      Sample.format Sample.describe_error
                      "trusted-advisor://recommendations" Sample.warning_args
                      CacheInstances.recommendations 0 5 0)))
         60000 60000
         (snd (listRecommendations_handler Sample.produce_empty_list JsValue
                 Sample.format Sample.describe_error
                 "trusted-advisor://recommendations" Sample.warning_args
                 CacheInstances.recommendations 0 5 0)))
  = 1%nat.
Proof.
  assert (H1 : extractParameters Sample.warning_args LIST_RECOMMENDATIONS_PARAMS
               = Returns Sample.warning_params) by (vm_compute; reflexivity).
  assert (H2 : extractParameters Sample.warning_args_explicit LIST_RECOMMENDATIONS_PARAMS
               = Returns Sample.warning_params) by (vm_compute; reflexivity).
  assert (Hmiss : forall entry,
             JsMap.get (cache CacheInstances.recommendations)
                       (generateKey CacheKeys.LIST_RECOMMENDATIONS Sample.warning_params)
             = Some entry ->
             0 - timestamp entry > ttl entry) by (intros entry H; discriminate H).
  assert (Hres : Sample.produce_empty_list Sample.warning_params 0
                 = Resolved Sample.empty_list_response) by reflexivity.
  assert (Ht : truthy Sample.empty_list_response = true) by reflexivity.
  assert (Hl : 60000 - 5 <= default_ttl (options CacheInstances.recommendations))
    by decide_closed.
  split; [exact H1|]. split; [exact H2|]. split; [exact Ht|]. split; [exact Hl|].
  exact (proj2 (proj2 (proj2
           (listRecommendations_second_request_from_cache
              Sample.produce_empty_list JsValue Sample.format Sample.describe_error
              "trusted-advisor://recommendations" "trusted-advisor://recommendations"
              Sample.warning_args Sample.warning_args_explicit Sample.warning_params
              Sample.empty_list_response CacheInstances.recommendations
              0 5 60000 60000 0 H1 H2 Hmiss Hres Ht Hl)))).
Defined.


Lemma set_spares_more_recent_entries_witness :
  well_formed Fixture.full_cache /\
  JsMap.get (cache Fixture.full_cache) (generateKey "op" Fixture.p3)
  = Some (mkEntry Fixture.d3 3 1000 1 3) /\
  JsMap.get (cache Fixture.full_cache) (generateKey "op" Fixture.p1)
  = Some (mkEntry Fixture.d1 1 1000 1 1) /\
  lastAccessed (mkEntry Fixture.d1 1 1000 1 1)
  < lastAccessed (mkEntry Fixture.d3 3 1000 1 3) /\
  generateKey "op" Fixture.p3 <> generateKey "op" Fixture.p4 /\
  JsMap.get (cache (ResponseCache.set Fixture.full_cache "op" Fixture.p4
                                      Fixture.d4 None 5))
            (generateKey "op" Fixture.p3)
  = Some (mkEntry Fixture.d3 3 1000 1 3).
Proof.
  assert (Hwf : well_formed Fixture.full_cache)
    by (repeat apply set_well_formed; apply init_well_formed).
  assert (H3 : JsMap.get (cache Fixture.full_cache) (generateKey "op" Fixture.p3)
               = Some (mkEntry Fixture.d3 3 1000 1 3)) by decide_closed.
  assert (H1 : JsMap.get (cache Fixture.full_cache) (generateKey "op" Fixture.p1)
               = Some (mkEntry Fixture.d1 1 1000 1 1)) by decide_closed.
  assert (Hlt : lastAccessed (mkEntry Fixture.d1 1 1000 1 1)
                < lastAccessed (mkEntry Fixture.d3 3 1000 1 3)) by reflexivity.
  assert (Hne : generateKey "op" Fixture.p3 <> generateKey "op" Fixture.p4)
    by decide_closed.
  split; [exact Hwf|]. split; [exact H3|]. split; [exact H1|].
  split; [exact Hlt|]. split; [exact Hne|].
  exact (set_spares_more_recent_entries Fixture.full_cache "op" Fixture.p4 Fixture.d4
           None 5 _ _ _ _ Hwf H3 H1 Hlt Hne).
Defined.
